(** * Speech Utility App: a shallow embedding of [app.py] and
      [speech_recognition.py]

    The two Streamlit scripts are thin orchestration glue around Whisper,
    sounddevice, pyttsx3, tempfile and the Streamlit widget tree.  The
    embedding keeps the scripts' own control flow (guards, [try]/[except],
    the order of calls) and treats every library call as a primitive of a
    state-and-exception monad whose outcome is supplied by a record of
    external behaviours. *)

From Stdlib Require Import NArith Ascii String Decimal.
From Stdlib.Strings Require Import Byte.
From stdpp Require Import base option list gmap.

Local Open Scope N_scope.

(** ** Python values *)

(** A Python [str] is a sequence of Unicode code points. *)
Definition str := list N.

(** ASCII literals of the source are written as Rocq strings. *)
Definition lit (s : string) : str := map N_of_ascii (list_ascii_of_string s).

Definition dquote : N := 34.
Definition newline : N := 10.

(** [bytes] *)
Definition bytes := list byte.

(** Truthiness of a [str]: [if text:] / [if not text:]. *)
Definition truthy (s : str) : bool :=
  match s with [] => false | _ :: _ => true end.

(** [str.isspace] on one code point: the code points CPython's
    [_PyUnicode_IsWhitespace] accepts. *)
Definition isspace (c : N) : bool :=
  ((9 <=? c) && (c <=? 13)) || ((28 <=? c) && (c <=? 32))
  || (c =? 133) || (c =? 160) || (c =? 5760)
  || ((8192 <=? c) && (c <=? 8202))
  || (c =? 8232) || (c =? 8233) || (c =? 8239) || (c =? 8287) || (c =? 12288).

Fixpoint lstrip (s : str) : str :=
  match s with
  | [] => []
  | c :: s' => if isspace c then lstrip s' else s
  end.

Definition rstrip (s : str) : str := rev (lstrip (rev s)).

(** [str.strip()] with no argument. *)
Definition strip (s : str) : str := rstrip (lstrip s).

(** [str.split()] with no argument: the scanning loop of CPython's
    whitespace split.  [tok] is the token being read, newest character
    first; runs of whitespace separate tokens and produce no empty ones. *)
Fixpoint split_from (tok : str) (s : str) : list str :=
  match s with
  | [] => match tok with [] => [] | _ => [rev tok] end
  | c :: s' =>
      if isspace c
      then match tok with
           | [] => split_from [] s'
           | _ => rev tok :: split_from [] s'
           end
      else split_from (c :: tok) s'
  end.

Definition split (s : str) : list str := split_from [] s.

(** [str(n)] for a non-negative [int], as f-strings format it. *)
Fixpoint str_of_uint (d : Decimal.uint) : str :=
  match d with
  | Decimal.Nil => []
  | Decimal.D0 d => 48 :: str_of_uint d
  | Decimal.D1 d => 49 :: str_of_uint d
  | Decimal.D2 d => 50 :: str_of_uint d
  | Decimal.D3 d => 51 :: str_of_uint d
  | Decimal.D4 d => 52 :: str_of_uint d
  | Decimal.D5 d => 53 :: str_of_uint d
  | Decimal.D6 d => 54 :: str_of_uint d
  | Decimal.D7 d => 55 :: str_of_uint d
  | Decimal.D8 d => 56 :: str_of_uint d
  | Decimal.D9 d => 57 :: str_of_uint d
  end.

Definition str_of_nat (n : nat) : str := str_of_uint (Nat.to_uint n).

(** ** Exceptions and results *)

(** An instance of (a subclass of) [Exception]; [str(e)] is its message.
    [except Exception] catches every such value. *)
Record exn := Exception { exn_str : str }.

Inductive result (A : Type) :=
| Ok (a : A)
| Raise (e : exn).
Arguments Ok {A} a.
Arguments Raise {A} e.

(** ** Library objects *)

(** Identity of a library object (a Whisper model, a pyttsx3 engine). *)
Definition handle := N.

(** A float32 sample, kept as its bit pattern; the scripts never look at
    sample values. *)
Definition float32 := N.

(** A numpy array: its shape and its elements in row-major order. *)
Record ndarray := { shape : list N; data : list float32 }.

Definition ndsize (a : ndarray) : N := foldr N.mul 1 (shape a).

(** [np.squeeze]: axes of length one are removed, the elements stay. *)
Definition np_squeeze (a : ndarray) : ndarray :=
  {| shape := filter (fun d => d ≠ 1) (shape a); data := data a |}.

(** What [model.transcribe] is given: a path (with the bytes the file holds
    when it is read, if it exists) or an in-memory array. *)
Inductive audio_input :=
| AudioPath (path : str) (content : option bytes)
| AudioArray (a : ndarray).

(** The dictionary Whisper returns; the scripts read its ["text"] entry. *)
Record whisper_result := { result_text : str; result_language : str }.

(** Streamlit's [UploadedFile]. *)
Record uploaded_file := { file_name : str; getvalue : bytes }.

(** ** The world the scripts act on *)

(** Streamlit's [st.session_state]: a key is absent until first assigned. *)
Record session_state := {
  whisper_model : option handle;
  tts_engine : option handle;
  transcribed_text : option str;
  repeated_text : option str }.

Definition empty_session : session_state :=
  {| whisper_model := None; tts_engine := None;
     transcribed_text := None; repeated_text := None |}.

(** What the page shows: one entry per Streamlit call. *)
Inductive ui_event :=
| StInfo (body : str)
| StWarning (body : str)
| StError (body : str)
| StSuccess (body : str)
| StWrite (body : str)
| StTitle (body : str)
| StMarkdown (body : str)
| StHeader (body : str)
| StTabs (labels : list str)
| StFileUploader (label : str) (types : list str)
| StAudio (file : uploaded_file) (format : str)
| StButton (label key : str)
| StTextArea (label : str) (value : option str) (height : option N) (key : str)
| StHtml (html : str) (height : N).

(** Every call that leaves the script, in the order it is made. *)
Inductive event :=
| Ui (e : ui_event)
| WhisperLoadModel (model_name : str)
| ModelTranscribe (model : handle) (audio : audio_input)
| TempfileCreate (path : str)
| FileWrite (path : str) (content : bytes)
| OsUnlink (path : str)
| SdRec (frames samplerate channels : N)
| SdWait
| Pyttsx3Init
| EngineSetProperty (engine : handle) (prop : str) (value : N)
| EngineSay (engine : handle) (spoken : str)
| EngineRunAndWait (engine : handle).

Record world := {
  trace : list event;
  fs : gmap (list N) bytes;
  resource_cache : gmap (list N) handle;
  next_handle : handle;
  session : session_state }.

Definition initial_world : world :=
  {| trace := []; fs := ∅; resource_cache := ∅; next_handle := 0;
     session := empty_session |}.

Definition emit (e : event) (w : world) : world :=
  {| trace := trace w ++ [e]; fs := fs w; resource_cache := resource_cache w;
     next_handle := next_handle w; session := session w |}.

Definition set_fs (f : gmap (list N) bytes) (w : world) : world :=
  {| trace := trace w; fs := f; resource_cache := resource_cache w;
     next_handle := next_handle w; session := session w |}.

Definition set_resource_cache (c : gmap (list N) handle) (w : world) : world :=
  {| trace := trace w; fs := fs w; resource_cache := c;
     next_handle := next_handle w; session := session w |}.

Definition set_next_handle (h : handle) (w : world) : world :=
  {| trace := trace w; fs := fs w; resource_cache := resource_cache w;
     next_handle := h; session := session w |}.

Definition set_session (s : session_state) (w : world) : world :=
  {| trace := trace w; fs := fs w; resource_cache := resource_cache w;
     next_handle := next_handle w; session := s |}.

(** What the libraries, the devices and the user do during one run of a
    script.  [None] in an [option exn] means the call returns normally. *)
Record externals := {
  (* the user's widget state for this run *)
  ext_file_uploader : option uploaded_file;
  ext_button : str -> bool;
  ext_text_area : str -> str;
  (* whisper *)
  ext_load_model : str -> option exn;
  ext_transcribe : handle -> audio_input -> result whisper_result;
  (* tempfile and os *)
  ext_tempdir : str;
  ext_tempnames : list str;
  ext_create : str -> option exn;
  ext_write : str -> bytes -> option exn;
  ext_unlink : str -> option exn;
  (* sounddevice *)
  ext_rec : N -> N -> N -> result ndarray;
  ext_wait : option exn;
  (* pyttsx3 *)
  ext_init : option exn;
  ext_setProperty : handle -> str -> N -> option exn;
  ext_say : handle -> str -> option exn;
  ext_runAndWait : handle -> option exn }.

(** ** The monad: state passing with exceptions *)

Definition M (A : Type) : Type := world -> result A * world.

Definition ret {A} (a : A) : M A := fun w => (Ok a, w).

Definition bind {A B} (m : M A) (k : A -> M B) : M B :=
  fun w => match m w with
           | (Ok a, w') => k a w'
           | (Raise e, w') => (Raise e, w')
           end.

Definition raise {A} (e : exn) : M A := fun w => (Raise e, w).

(** [try: body  except Exception as e: handler e] *)
Definition try_except {A} (body : M A) (handler : exn -> M A) : M A :=
  fun w => match body w with
           | (Ok a, w') => (Ok a, w')
           | (Raise e, w') => handler e w'
           end.

Notation "x <- m ;; k" := (bind m (fun x => k))
  (at level 100, m at next level, right associativity).
Notation "m ;;; k" := (bind m (fun _ => k))
  (at level 100, right associativity).

(** A library call that returns nothing: it is recorded, then it returns
    or raises as the externals say. *)
Definition call (e : event) (outcome : option exn) : M unit :=
  fun w => match outcome with
           | None => (Ok tt, emit e w)
           | Some x => (Raise x, emit e w)
           end.

Definition modify (f : world -> world) : M unit := fun w => (Ok tt, f w).
Definition get {A} (f : world -> A) : M A := fun w => (Ok (f w), w).

(** ** The libraries' calls *)

Section Library.
Variable ext : externals.

(** *** Streamlit *)

(** Display calls add to the page and return normally; widgets also return
    the value the user gave them in this run. *)

Definition st_info (body : str) : M unit := modify (emit (Ui (StInfo body))).
Definition st_warning (body : str) : M unit := modify (emit (Ui (StWarning body))).
Definition st_error (body : str) : M unit := modify (emit (Ui (StError body))).
Definition st_success (body : str) : M unit := modify (emit (Ui (StSuccess body))).
Definition st_write (body : str) : M unit := modify (emit (Ui (StWrite body))).
Definition st_title (body : str) : M unit := modify (emit (Ui (StTitle body))).
Definition st_markdown (body : str) : M unit := modify (emit (Ui (StMarkdown body))).
Definition st_header (body : str) : M unit := modify (emit (Ui (StHeader body))).
Definition st_tabs (labels : list str) : M unit := modify (emit (Ui (StTabs labels))).
Definition st_audio (file : uploaded_file) (format : str) : M unit :=
  modify (emit (Ui (StAudio file format))).
Definition st_components_v1_html (html : str) (height : N) : M unit :=
  modify (emit (Ui (StHtml html height))).

Definition st_file_uploader (label : str) (types : list str)
  : M (option uploaded_file) :=
  modify (emit (Ui (StFileUploader label types))) ;;; ret (ext_file_uploader ext).

Definition st_button (label key : str) : M bool :=
  modify (emit (Ui (StButton label key))) ;;; ret (ext_button ext key).

(** [st.text_area(label, key=key)]: an input whose value the user types. *)
Definition st_text_area (label key : str) : M str :=
  modify (emit (Ui (StTextArea label None None key))) ;;;
  ret (ext_text_area ext key).

(** [st.text_area(label, value, height=h, key=key)]: shown prefilled. *)
Definition st_text_area_value (label value : str) (height : N) (key : str)
  : M str :=
  modify (emit (Ui (StTextArea label (Some value) (Some height) key))) ;;;
  ret value.

(** Showing again the elements a cached function showed. *)
Definition replay (elements : list ui_event) (w : world) : world :=
  foldl (fun w e => emit (Ui e) w) w elements.

(** [@st.cache_resource] on a function without arguments, given as the
    Streamlit elements it shows and the computation it then makes.  While
    the process-wide cache has no entry for the function, a call shows the
    elements and runs the computation; the object it returns is stored,
    and a computation that raises stores nothing.  Every later call
    returns the stored object without running the computation, and shows
    the elements again: Streamlit records the static elements of a cached
    function with its result and replays them on every cache hit. *)
Definition cache_resource (qualname : str) (elements : list ui_event)
  (compute : M handle) : M handle :=
  fun w =>
    match resource_cache w !! qualname with
    | Some h => (Ok h, replay elements w)
    | None =>
        match compute (replay elements w) with
        | (Ok h, w') =>
            (Ok h, set_resource_cache (<[qualname := h]> (resource_cache w')) w')
        | (Raise e, w') => (Raise e, w')
        end
    end.

(** Reading [st.session_state.attr]; an absent key raises. *)
Definition session_attr {A} (field : session_state -> option A) (attr : str)
  : M A :=
  fun w => match field (session w) with
           | Some a => (Ok a, w)
           | None => (Raise (Exception attr), w)
           end.

Definition assign_whisper_model (h : handle) : M unit :=
  modify (fun w => set_session
    {| whisper_model := Some h; tts_engine := tts_engine (session w);
       transcribed_text := transcribed_text (session w);
       repeated_text := repeated_text (session w) |} w).

Definition assign_tts_engine (h : handle) : M unit :=
  modify (fun w => set_session
    {| whisper_model := whisper_model (session w); tts_engine := Some h;
       transcribed_text := transcribed_text (session w);
       repeated_text := repeated_text (session w) |} w).

Definition assign_transcribed_text (t : str) : M unit :=
  modify (fun w => set_session
    {| whisper_model := whisper_model (session w);
       tts_engine := tts_engine (session w);
       transcribed_text := Some t;
       repeated_text := repeated_text (session w) |} w).

Definition assign_repeated_text (t : str) : M unit :=
  modify (fun w => set_session
    {| whisper_model := whisper_model (session w);
       tts_engine := tts_engine (session w);
       transcribed_text := transcribed_text (session w);
       repeated_text := Some t |} w).

(** *** Whisper *)

(** A new library object: its identity is the next unused one. *)
Definition new_object (e : event) (outcome : option exn) : M handle :=
  fun w =>
    let w1 := emit e w in
    match outcome with
    | Some x => (Raise x, w1)
    | None => (Ok (next_handle w1), set_next_handle (next_handle w1 + 1) w1)
    end.

Definition whisper_load_model (model_name : str) : M handle :=
  new_object (WhisperLoadModel model_name) (ext_load_model ext model_name).

Definition model_transcribe (model : handle) (audio : audio_input)
  : M whisper_result :=
  fun w => (ext_transcribe ext model audio, emit (ModelTranscribe model audio) w).

(** [model.transcribe(path)]: the model reads what the file holds now. *)
Definition model_transcribe_path (model : handle) (path : str)
  : M whisper_result :=
  fun w => model_transcribe model (AudioPath path (fs w !! path)) w.

(** *** tempfile and os *)

Definition temp_path (suffix name : str) : str :=
  ext_tempdir ext ++ lit "/" ++ lit "tmp" ++ name ++ suffix.

(** The candidate names are tried in turn until one does not exist. *)
Fixpoint first_unused (suffix : str) (files : gmap (list N) bytes)
  (names : list str) : option str :=
  match names with
  | [] => None
  | n :: names' =>
      match files !! temp_path suffix n with
      | None => Some (temp_path suffix n)
      | Some _ => first_unused suffix files names'
      end
  end.

(** [tempfile.NamedTemporaryFile(delete=False, suffix=suffix)]: creates an
    empty file and yields its name; nothing deletes it on close. *)
Definition NamedTemporaryFile (suffix : str) : M str :=
  fun w =>
    match first_unused suffix (fs w) (ext_tempnames ext) with
    | None =>
        (Raise (Exception (lit "No usable temporary file name found")), w)
    | Some p =>
        match ext_create ext p with
        | Some x => (Raise x, emit (TempfileCreate p) w)
        | None => (Ok p, set_fs (<[p := []]> (fs w)) (emit (TempfileCreate p) w))
        end
    end.

(** [tmp_file.write(content)] on the file named [path]. *)
Definition tmp_file_write (path : str) (content : bytes) : M unit :=
  fun w =>
    let w1 := emit (FileWrite path content) w in
    match ext_write ext path content with
    | Some x => (Raise x, w1)
    | None =>
        (Ok tt, set_fs (<[path := default [] (fs w !! path) ++ content]> (fs w)) w1)
    end.

(** [os.unlink(path)] *)
Definition os_unlink (path : str) : M unit :=
  fun w =>
    let w1 := emit (OsUnlink path) w in
    match fs w !! path with
    | None =>
        (Raise (Exception (lit "[Errno 2] No such file or directory")), w1)
    | Some _ =>
        match ext_unlink ext path with
        | Some x => (Raise x, w1)
        | None => (Ok tt, set_fs (delete path (fs w)) w1)
        end
    end.

(** *** sounddevice *)

Definition sd_rec (frames samplerate channels : N) : M ndarray :=
  fun w => (ext_rec ext frames samplerate channels,
            emit (SdRec frames samplerate channels) w).

Definition sd_wait : M unit := call SdWait (ext_wait ext).

(** *** pyttsx3 *)

Definition pyttsx3_init : M handle := new_object Pyttsx3Init (ext_init ext).

Definition engine_setProperty (engine : handle) (prop : str) (value : N)
  : M unit :=
  call (EngineSetProperty engine prop value) (ext_setProperty ext engine prop value).

Definition engine_say (engine : handle) (spoken : str) : M unit :=
  call (EngineSay engine spoken) (ext_say ext engine spoken).

Definition engine_runAndWait (engine : handle) : M unit :=
  call (EngineRunAndWait engine) (ext_runAndWait ext engine).

End Library.

(** A triple-quoted literal, given line by line. *)
Fixpoint join_lines (ls : list str) : str :=
  match ls with
  | [] => []
  | [l] => l
  | l :: ls' => l ++ newline :: join_lines ls'
  end.

(** ** app.py *)

Module App.
Section Script.
Variable ext : externals.

Definition load_whisper_model : M handle :=
  cache_resource (lit "load_whisper_model")
    [StInfo (lit "Loading Whisper model...")]
    (whisper_load_model ext (lit "tiny")).

(** The body of the [try] block of [transcribe_uploaded_audio]. *)
Definition transcribe_uploaded_audio_try (model : handle)
  (audio_file : uploaded_file) : M str :=
  st_info (0x23F3 :: lit " Transcribing...") ;;;
  tmp_file <- NamedTemporaryFile ext (lit ".wav") ;;
  tmp_file_write ext tmp_file (getvalue audio_file) ;;;
  let tmp_filepath := tmp_file in
  result <- model_transcribe_path ext model tmp_filepath ;;
  let text := strip (result_text result) in
  os_unlink ext tmp_filepath ;;;
  st_write (0x1F4DD :: lit " Transcribed Text: " ++ text) ;;;
  ret text.

Definition transcribe_uploaded_audio (model : handle)
  (audio_file : option uploaded_file) : M str :=
  match audio_file with
  | None =>
      st_warning (lit "No audio uploaded. Please upload an audio file.") ;;;
      ret []
  | Some audio_file =>
      try_except (transcribe_uploaded_audio_try model audio_file)
        (fun e =>
           st_error (lit "Error transcribing audio: " ++ exn_str e) ;;;
           ret [])
  end.

Definition text_to_speech_info : M unit :=
  st_info (join_lines
    [ [];
      lit "    " ++ [0x2139; 0xFE0F] ++ lit " Note: Text-to-speech functionality is not available in the web version.";
      lit "    For a full experience with speech output, please run this app locally.";
      lit "    " ]).

(** The f-string of [get_audio_player_html]: [text] is spliced between the
    two quotes of the script's string literal exactly as it is. *)
Definition get_audio_player_html (text : str) : str :=
  join_lines
    [ [];
      lit "    <script>";
      lit "        function speakText() {";
      lit "            const text = " ++ [dquote] ++ text ++ [dquote] ++ lit ";";
      lit "            const utterance = new SpeechSynthesisUtterance(text);";
      lit "            window.speechSynthesis.speak(utterance);";
      lit "        }";
      lit "    </script>";
      lit "    <button onclick=" ++ [dquote] ++ lit "speakText()" ++ [dquote]
        ++ lit " style=" ++ [dquote]
        ++ lit "background-color:#4CAF50;color:white;padding:10px;border:none;border-radius:5px;cursor:pointer;"
        ++ [dquote] ++ lit ">";
      lit "        " ++ [0x1F50A] ++ lit " Speak Text (Browser TTS)";
      lit "    </button>";
      lit "    " ].

(** [tab1]: the upload and the transcribe button. *)
Definition tab1 : M unit :=
  st_header (lit "Audio Transcription") ;;;
  uploaded <- st_file_uploader ext (lit "Upload an audio file")
                [lit "wav"; lit "mp3"; lit "ogg"; lit "m4a"] ;;
  match uploaded with
  | None => ret tt
  | Some file =>
      st_audio file (lit "audio/wav") ;;;
      clicked <- st_button ext (0x1F50D :: lit " Transcribe Audio")
                   (lit "transcribe_upload") ;;
      if clicked : bool then
        model <- session_attr whisper_model (lit "whisper_model") ;;
        transcribed <- transcribe_uploaded_audio model uploaded ;;
        assign_transcribed_text transcribed ;;;
        if truthy transcribed then
          st_text_area_value (lit "Copy transcribed text:") transcribed 150
            (lit "output_text") ;;; ret tt
        else ret tt
      else ret tt
  end.

(** [tab2]: the text to speak, the browser-side player and the word count. *)
Definition tab2 : M unit :=
  st_header (lit "Text-to-Speech") ;;;
  user_text <- st_text_area ext (lit "Enter text to speak:") (lit "tts_input") ;;
  if truthy user_text then
    st_markdown (lit "Since server-side TTS isn't available in the web version, you can use your browser's built-in speech synthesis:") ;;;
    st_components_v1_html (get_audio_player_html user_text) 50 ;;;
    let word_count := length (split user_text) in
    st_info (lit "Word count: " ++ str_of_nat word_count)
  else ret tt.

Definition main : M unit :=
  has_model <- get (fun w => whisper_model (session w)) ;;
  match has_model with
  | None => m <- load_whisper_model ;; assign_whisper_model m
  | Some _ => ret tt
  end ;;;
  has_text <- get (fun w => transcribed_text (session w)) ;;
  match has_text with
  | None => assign_transcribed_text []
  | Some _ => ret tt
  end ;;;
  st_title ([0x1F399; 0xFE0F] ++ lit " Speech Utility App") ;;;
  st_markdown (join_lines
    [ [];
      lit "    This app allows you to transcribe speech from audio files using OpenAI's Whisper model.";
      lit "    Upload an audio file and get the transcribed text.";
      lit "    " ]) ;;;
  st_warning (join_lines
    [ [];
      lit "    " ++ [0x26A0; 0xFE0F] ++ lit " The web version has limited functionality:";
      lit "    - Audio recording from microphone isn't available";
      lit "    - Server-side speech synthesis isn't available";
      lit "    - You can upload audio files for transcription";
      lit "    " ]) ;;;
  st_tabs [lit "Audio Transcription"; lit "Text-to-Speech"] ;;;
  tab1 ;;;
  tab2 ;;;
  st_markdown (lit "---") ;;;
  st_markdown (lit "Powered by OpenAI Whisper | Made with Streamlit").

End Script.
End App.

(** ** speech_recognition.py *)

Module SpeechRecognition.
Section Script.
Variable ext : externals.

Definition load_whisper_model : M handle :=
  cache_resource (lit "load_whisper_model")
    [StInfo (lit "Loading Whisper model...")]
    (whisper_load_model ext (lit "tiny")).

Definition init_tts_engine : M handle :=
  cache_resource (lit "init_tts_engine") []
    (engine <- pyttsx3_init ext ;;
     engine_setProperty ext engine (lit "rate") 150 ;;;
     ret engine).

(** [record_audio(duration, samplerate)]; [None] is the absent result. *)
Definition record_audio (duration samplerate : N) : M (option ndarray) :=
  try_except
    (st_info (0x1F3A4 :: lit " Recording... Speak now!") ;;;
     audio_data <- sd_rec ext (duration * samplerate) samplerate 1 ;;
     sd_wait ext ;;;
     st_success (0x2705 :: lit " Recording complete!") ;;;
     ret (Some (np_squeeze audio_data)))
    (fun e =>
       st_error (lit "Error recording audio: " ++ exn_str e) ;;;
       ret None).

(** The defaults of the signature, [duration=5, samplerate=16000]. *)
Definition duration : N := 5.
Definition samplerate : N := 16000.

(** The body of the [try] block of [transcribe_audio]. *)
Definition transcribe_audio_try (model : handle) (audio : ndarray) : M str :=
  st_info (0x23F3 :: lit " Transcribing...") ;;;
  result <- model_transcribe ext model (AudioArray audio) ;;
  let text := strip (result_text result) in
  st_write (0x1F4DD :: lit " Transcribed Text: " ++ text) ;;;
  ret text.

Definition transcribe_audio (model : handle) (audio : option ndarray) : M str :=
  match audio with
  | None =>
      st_warning (lit "No audio recorded. Please try again.") ;;;
      ret []
  | Some audio =>
      try_except (transcribe_audio_try model audio)
        (fun e =>
           st_error (lit "Error transcribing audio: " ++ exn_str e) ;;;
           ret [])
  end.

Definition speak_text (engine : handle) (text : str) : M unit :=
  if negb (truthy text) then
    st_warning (lit "No text to speak. Please enter some text.")
  else
    try_except
      (st_info (0x1F50A :: lit " Speaking...") ;;;
       engine_say ext engine text ;;;
       engine_runAndWait ext engine ;;;
       st_success (lit "Speech completed!"))
      (fun e => st_error (lit "Error speaking text: " ++ exn_str e)).

(** [tab1]: record, then transcribe and store. *)
Definition tab1 : M unit :=
  st_header (lit "Speech Transcription") ;;;
  clicked <- st_button ext (0x1F3A4 :: lit " Start Recording")
               (lit "record_transcribe") ;;
  if clicked : bool then
    assign_transcribed_text [] ;;;
    audio <- record_audio duration samplerate ;;
    match audio with
    | Some _ =>
        model <- session_attr whisper_model (lit "whisper_model") ;;
        transcribed <- transcribe_audio model audio ;;
        assign_transcribed_text transcribed
    | None => ret tt
    end
  else ret tt.

(** [tab2]: speak the typed text. *)
Definition tab2 : M unit :=
  st_header (lit "Text-to-Speech") ;;;
  user_text <- st_text_area ext (lit "Enter text to speak:") (lit "tts_input") ;;
  clicked <- st_button ext (0x1F50A :: lit " Speak Text") (lit "speak_text") ;;
  if clicked : bool then
    engine <- session_attr tts_engine (lit "tts_engine") ;;
    speak_text engine user_text
  else ret tt.

(** [tab3]: record, transcribe and speak the transcription back. *)
Definition tab3 : M unit :=
  st_header (lit "Record and Repeat") ;;;
  clicked <- st_button ext (0x1F3A4 :: lit " Record and Repeat")
               (lit "record_repeat") ;;
  if clicked : bool then
    assign_repeated_text [] ;;;
    audio <- record_audio duration samplerate ;;
    match audio with
    | Some _ =>
        model <- session_attr whisper_model (lit "whisper_model") ;;
        transcribed_text <- transcribe_audio model audio ;;
        if truthy transcribed_text then
          st_info (0x1F504 :: lit " Now repeating your speech...") ;;;
          engine <- session_attr tts_engine (lit "tts_engine") ;;
          speak_text engine transcribed_text
        else ret tt
    | None => ret tt
    end
  else ret tt.

Definition main : M unit :=
  has_model <- get (fun w => whisper_model (session w)) ;;
  match has_model with
  | None => m <- load_whisper_model ;; assign_whisper_model m
  | Some _ => ret tt
  end ;;;
  has_engine <- get (fun w => tts_engine (session w)) ;;
  match has_engine with
  | None => e <- init_tts_engine ;; assign_tts_engine e
  | Some _ => ret tt
  end ;;;
  st_title ([0x1F399; 0xFE0F] ++ lit " Speech Utility App") ;;;
  st_tabs [lit "Speak-to-Text"; lit "Text-to-Speech"; lit "Speak & Repeat"] ;;;
  tab1 ;;;
  tab2 ;;;
  tab3 ;;;
  st_markdown (lit "---").

End Script.
End SpeechRecognition.

(** ** Notions the properties are stated with *)

(** *** Sessions *)

(** Streamlit reruns the script on every user action; the world (and the
    session state in it) carries over, whether a run ends normally or with
    an exception. *)
Definition run_session (script : externals -> M unit) (runs : list externals)
  (w : world) : world :=
  foldl (fun w ext => snd (script ext w)) w runs.

(** The events a computation adds to the trace. *)
Definition emits {A} (m : M A) (w : world) (evs : list event) : Prop :=
  trace (snd (m w)) = trace w ++ evs.

(** *** Whitespace-separated tokens *)

(** The number of places where a token begins: a character that is not
    whitespace and stands first or just after whitespace. *)
Fixpoint token_starts (after_space : bool) (s : str) : nat :=
  match s with
  | [] => 0
  | c :: s' =>
      if isspace c then token_starts true s'
      else (if after_space then 1 else 0)%nat + token_starts false s'
  end.

Definition whitespace_separated_tokens (s : str) : nat := token_starts true s.

(** *** The script's string literal *)

Definition backslash : N := 92.

Definition is_line_terminator (c : N) : bool := (c =? 10) || (c =? 13).

(** Reading a double-quoted JavaScript string literal, its opening quote
    already consumed: the literal runs to the first quote that no backslash
    escapes; a raw line terminator or the end of input inside it is a
    syntax error.  The result is the raw body and what follows the closing
    quote. *)
Fixpoint js_string_literal (body : str) (s : str) : option (str * str) :=
  match s with
  | [] => None
  | c :: s' =>
      if c =? dquote then Some (rev body, s')
      else if c =? backslash then
        match s' with
        | [] => None
        | d :: s'' =>
            if is_line_terminator d then js_string_literal body s''
            else js_string_literal (d :: c :: body) s''
        end
      else if is_line_terminator c then None
      else js_string_literal (c :: body) s'
  end.

(** The template of [get_audio_player_html] up to and including the quote
    that opens the literal, and from the quote that is meant to close it. *)
Definition html_before_text : str :=
  join_lines
    [ [];
      lit "    <script>";
      lit "        function speakText() {";
      lit "            const text = " ++ [dquote] ].

Definition html_after_text : str :=
  join_lines
    [ [dquote] ++ lit ";";
      lit "            const utterance = new SpeechSynthesisUtterance(text);";
      lit "            window.speechSynthesis.speak(utterance);";
      lit "        }";
      lit "    </script>";
      lit "    <button onclick=" ++ [dquote] ++ lit "speakText()" ++ [dquote]
        ++ lit " style=" ++ [dquote]
        ++ lit "background-color:#4CAF50;color:white;padding:10px;border:none;border-radius:5px;cursor:pointer;"
        ++ [dquote] ++ lit ">";
      lit "        " ++ [0x1F50A] ++ lit " Speak Text (Browser TTS)";
      lit "    </button>";
      lit "    " ].

(** The script code the template puts after the literal. *)
Definition script_after_literal : str := drop 1 html_after_text.

(** *** The script element *)

(** The states of the HTML tokenizer inside a [script] element. *)
Inductive script_state :=
| ScriptData
| ScriptLessThan
| ScriptEndTagOpen
| ScriptEndTagName (name : str)
| EscapeStart
| EscapeStartDash
| Escaped
| EscapedDash
| EscapedDashDash
| EscapedLessThan
| EscapedEndTagOpen
| EscapedEndTagName (name : str)
| DoubleEscapeStart (buffer : str)
| DoubleEscaped
| DoubleEscapedDash
| DoubleEscapedDashDash
| DoubleEscapedLessThan
| DoubleEscapeEnd (buffer : str).

Definition less_than : N := 60.
Definition greater_than : N := 62.
Definition solidus : N := 47.
Definition hyphen : N := 45.
Definition exclamation : N := 33.

Definition is_ascii_alpha (c : N) : bool :=
  ((65 <=? c) && (c <=? 90)) || ((97 <=? c) && (c <=? 122)).

Definition ascii_lower (c : N) : N :=
  if (65 <=? c) && (c <=? 90) then c + 32 else c.

(** What ends a tag name: whitespace, [/] or [>]. *)
Definition ends_tag_name (c : N) : bool :=
  (c =? 9) || (c =? 10) || (c =? 12) || (c =? 13) || (c =? 32)
  || (c =? solidus) || (c =? greater_than).

Definition is_script (name : str) : bool := bool_decide (name = lit "script").

Definition in_script_data (c : N) : script_state :=
  if c =? less_than then ScriptLessThan else ScriptData.

Definition in_escaped (c : N) : script_state :=
  if c =? hyphen then EscapedDash
  else if c =? less_than then EscapedLessThan
  else Escaped.

Definition in_double_escaped (c : N) : script_state :=
  if c =? hyphen then DoubleEscapedDash
  else if c =? less_than then DoubleEscapedLessThan
  else DoubleEscaped.

(** One character of script content; [None] when it completes the end tag
    [</script] that closes the element.  A character a state hands back is
    read again in the state it names. *)
Definition script_step (st : script_state) (c : N) : option script_state :=
  match st with
  | ScriptData => Some (in_script_data c)
  | ScriptLessThan =>
      if c =? solidus then Some ScriptEndTagOpen
      else if c =? exclamation then Some EscapeStart
      else Some (in_script_data c)
  | ScriptEndTagOpen =>
      if is_ascii_alpha c then Some (ScriptEndTagName [ascii_lower c])
      else Some (in_script_data c)
  | ScriptEndTagName name =>
      if ends_tag_name c then
        if is_script name then None else Some (in_script_data c)
      else if is_ascii_alpha c then Some (ScriptEndTagName (name ++ [ascii_lower c]))
      else Some (in_script_data c)
  | EscapeStart =>
      if c =? hyphen then Some EscapeStartDash else Some (in_script_data c)
  | EscapeStartDash =>
      if c =? hyphen then Some EscapedDashDash else Some (in_script_data c)
  | Escaped => Some (in_escaped c)
  | EscapedDash =>
      if c =? hyphen then Some EscapedDashDash else Some (in_escaped c)
  | EscapedDashDash =>
      if c =? hyphen then Some EscapedDashDash
      else if c =? greater_than then Some ScriptData
      else Some (in_escaped c)
  | EscapedLessThan =>
      if c =? solidus then Some EscapedEndTagOpen
      else if is_ascii_alpha c then Some (DoubleEscapeStart [ascii_lower c])
      else Some (in_escaped c)
  | EscapedEndTagOpen =>
      if is_ascii_alpha c then Some (EscapedEndTagName [ascii_lower c])
      else Some (in_escaped c)
  | EscapedEndTagName name =>
      if ends_tag_name c then
        if is_script name then None else Some (in_escaped c)
      else if is_ascii_alpha c then Some (EscapedEndTagName (name ++ [ascii_lower c]))
      else Some (in_escaped c)
  | DoubleEscapeStart buffer =>
      if ends_tag_name c then
        if is_script buffer then Some DoubleEscaped else Some Escaped
      else if is_ascii_alpha c then Some (DoubleEscapeStart (buffer ++ [ascii_lower c]))
      else Some (in_escaped c)
  | DoubleEscaped => Some (in_double_escaped c)
  | DoubleEscapedDash =>
      if c =? hyphen then Some DoubleEscapedDashDash
      else Some (in_double_escaped c)
  | DoubleEscapedDashDash =>
      if c =? hyphen then Some DoubleEscapedDashDash
      else if c =? greater_than then Some ScriptData
      else Some (in_double_escaped c)
  | DoubleEscapedLessThan =>
      if c =? solidus then Some (DoubleEscapeEnd [])
      else Some (in_double_escaped c)
  | DoubleEscapeEnd buffer =>
      if ends_tag_name c then
        if is_script buffer then Some Escaped else Some DoubleEscaped
      else if is_ascii_alpha c then Some (DoubleEscapeEnd (buffer ++ [ascii_lower c]))
      else Some (in_double_escaped c)
  end.

(** Reading script content up to the end tag that closes the element: the
    result is what follows the character that ended the tag name, [None]
    when the content runs out with the element still open. *)
Fixpoint script_element_end (st : script_state) (s : str) : option str :=
  match s with
  | [] => None
  | c :: s' =>
      match script_step st c with
      | None => Some s'
      | Some st' => script_element_end st' s'
      end
  end.

(** The template through its [<script>] tag, and what it puts after its
    [</script>]. *)
Definition script_open : str := join_lines [ []; lit "    <script>" ].

Definition markup_after_script : str :=
  join_lines
    [ [];
      lit "    <button onclick=" ++ [dquote] ++ lit "speakText()" ++ [dquote]
        ++ lit " style=" ++ [dquote]
        ++ lit "background-color:#4CAF50;color:white;padding:10px;border:none;border-radius:5px;cursor:pointer;"
        ++ [dquote] ++ lit ">";
      lit "        " ++ [0x1F50A] ++ lit " Speak Text (Browser TTS)";
      lit "    </button>";
      lit "    " ].

(** The text is embedded as data when everything the user typed lies
    inside the script's string literal: read as JavaScript, the literal
    opened by the template's quote is closed by the template's own closing
    quote; and read as HTML, the script element is closed by the template's
    own end tag, not by anything in the text. *)
Definition embedded_as_data (html : str) : Prop :=
  (∃ body, js_string_literal [] (drop (length html_before_text) html)
           = Some (body, script_after_literal))
  ∧ script_element_end ScriptData (drop (length script_open) html)
    = Some markup_after_script.

(** *** Transcription attempts *)

(** What one user action amounts to, in terms of what the libraries did. *)
Inductive attempt :=
| NoAttempt
| AttemptFailed
| AttemptSucceeded (output : str).

(** The spec's reading: only a successful attempt replaces the text. *)
Definition most_recent_successful (previous : option str) (a : attempt)
  : option str :=
  match a with
  | AttemptSucceeded t => Some t
  | _ => previous
  end.

(** What the scripts keep: the result of the attempt, empty when it failed. *)
Definition most_recent_attempt (previous : option str) (a : attempt)
  : option str :=
  match a with
  | AttemptSucceeded t => Some t
  | AttemptFailed => Some []
  | NoAttempt => previous
  end.

(** Transcribing one upload, given the files that exist: every step of the
    upload path has to return normally for the attempt to succeed. *)
Definition upload_attempt (ext : externals) (files : gmap (list N) bytes)
  (model : handle) (file : uploaded_file) : attempt :=
  match first_unused ext (lit ".wav") files (ext_tempnames ext) with
  | None => AttemptFailed
  | Some p =>
      match ext_create ext p, ext_write ext p (getvalue file),
            ext_transcribe ext model (AudioPath p (Some (getvalue file))),
            ext_unlink ext p with
      | None, None, Ok r, None => AttemptSucceeded (strip (result_text r))
      | _, _, _, _ => AttemptFailed
      end
  end.

(** The attempt a run of [app.py] makes: one is made when a file is
    uploaded and "Transcribe Audio" is pressed. *)
Definition app_attempt (ext : externals) (files : gmap (list N) bytes)
  (model : handle) : attempt :=
  match ext_file_uploader ext with
  | None => NoAttempt
  | Some file =>
      if ext_button ext (lit "transcribe_upload")
      then upload_attempt ext files model file
      else NoAttempt
  end.

(** The text an attempt leaves: its output, empty when it failed. *)
Definition attempt_text (a : attempt) : str :=
  match a with
  | AttemptSucceeded t => t
  | _ => []
  end.

(** What the microphone yields in a run of [speech_recognition.py]. *)
Definition recorded (ext : externals) : option ndarray :=
  match ext_rec ext (5 * 16000) 16000 1, ext_wait ext with
  | Ok a, None => Some (np_squeeze a)
  | _, _ => None
  end.

(** The attempt the "Start Recording" action makes. *)
Definition recording_attempt (ext : externals) (model : handle) : attempt :=
  if ext_button ext (lit "record_transcribe") then
    match recorded ext with
    | None => AttemptFailed
    | Some a =>
        match ext_transcribe ext model (AudioArray a) with
        | Ok r => AttemptSucceeded (strip (result_text r))
        | Raise _ => AttemptFailed
        end
    end
  else NoAttempt.

(** *** Calls to the synthesis engine *)

Definition is_engine_call (e : event) : bool :=
  match e with
  | EngineSay _ _ | EngineRunAndWait _ => true
  | _ => false
  end.

(** The calls of [engine.say] and [engine.runAndWait] in a trace. *)
Fixpoint engine_calls (t : list event) : list event :=
  match t with
  | [] => []
  | e :: t' => if is_engine_call e then e :: engine_calls t' else engine_calls t'
  end.

(** The progress message both scripts show before calling the model. *)
Definition transcribing : event := Ui (StInfo (0x23F3 :: lit " Transcribing...")).

(** *** The resource cache *)

(** A computation that never drops or replaces an entry of
    [st.cache_resource]'s cache. *)
Definition keeps_cache {A} (m : M A) : Prop :=
  ∀ w k h, resource_cache w !! k = Some h →
           resource_cache (snd (m w)) !! k = Some h.

(** A computation that leaves the observation [f] of the world as it was. *)
Definition preserves {A X} (f : world → X) (m : M A) : Prop :=
  ∀ w, f (snd (m w)) = f w.

(** A computation all of whose calls satisfy [P]. *)
Definition emits_only (P : event → Prop) {A} (m : M A) : Prop :=
  ∀ w, ∃ evs, trace (snd (m w)) = trace w ++ evs ∧ Forall P evs.

(** Any call but [whisper.load_model]. *)
Definition not_a_model_load (e : event) : Prop :=
  match e with
  | WhisperLoadModel _ => False
  | _ => True
  end.

(** *** Temporary files *)


(** *** Trimming *)

(** [out] is [s] without the whitespace at its two ends. *)
Definition trimmed_of (s out : str) : Prop :=
  ∃ l r, s = l ++ out ++ r
         ∧ Forall (fun c => isspace c = true) l
         ∧ Forall (fun c => isspace c = true) r
         ∧ (∀ c, head out = Some c → isspace c = false)
         ∧ (∀ c, last out = Some c → isspace c = false).

(** *** What the sound device promises *)

(** [sd.rec(frames, samplerate, channels)] returns, when it returns, an
    array of [frames] rows and [channels] columns. *)
Definition device_contract (ext : externals) : Prop :=
  ∀ frames sr channels a,
    ext_rec ext frames sr channels = Ok a →
    shape a = [frames; channels]
    ∧ N.of_nat (length (data a)) = frames * channels.

(** ** Concrete inputs *)

(** A microphone that delivers silence. *)
Definition silence (frames sr channels : N) : result ndarray :=
  Ok {| shape := [frames; channels];
        data := replicate (N.to_nat (frames * channels)) 0 |}.

(** One run of a script: what the user did, what the model and the devices
    answer; every other library call returns normally. *)
Definition scenario (file : option uploaded_file) (clicked : str → bool)
  (typed : str → str)
  (transcribe : handle → audio_input → result whisper_result)
  (rec : N → N → N → result ndarray)
  (say : handle → str → option exn) : externals :=
  {| ext_file_uploader := file;
     ext_button := clicked;
     ext_text_area := typed;
     ext_load_model := fun _ => None;
     ext_transcribe := transcribe;
     ext_tempdir := lit "/tmp";
     ext_tempnames := [lit "a1b2c3d4"; lit "e5f6g7h8"];
     ext_create := fun _ => None;
     ext_write := fun _ _ => None;
     ext_unlink := fun _ => None;
     ext_rec := rec;
     ext_wait := None;
     ext_init := None;
     ext_setProperty := fun _ _ _ => None;
     ext_say := say;
     ext_runAndWait := fun _ => None |}.

Definition hears (t : str) : handle → audio_input → result whisper_result :=
  fun _ _ => Ok {| result_text := t; result_language := lit "en" |}.

Definition model_error : handle → audio_input → result whisper_result :=
  fun _ _ => Raise (Exception (lit "Failed to load audio")).

Definition device_error : N → N → N → result ndarray :=
  fun _ _ _ => Raise (Exception (lit "Error querying device -1")).

Definition nothing_clicked : str → bool := fun _ => false.
Definition nothing_typed : str → str := fun _ => [].
Definition engine_ok : handle → str → option exn := fun _ _ => None.
Definition engine_error : handle → str → option exn :=
  fun _ _ => Some (Exception (lit "run loop already started")).

(** Nothing uploaded, clicked or typed; every call returns normally. *)
Definition quiet : externals :=
  scenario None nothing_clicked nothing_typed (hears []) silence engine_ok.

Definition broken_microphone : externals :=
  scenario None nothing_clicked nothing_typed (hears []) device_error engine_ok.

Definition broken_engine : externals :=
  scenario None nothing_clicked nothing_typed (hears []) silence engine_error.

(** An upload Whisper cannot decode, with the button pressed. *)
Definition corrupt_file : uploaded_file :=
  {| file_name := lit "speech.mp3"; getvalue := [x49; x44; x33; x00] |}.

Definition transcribe_clicked : str → bool :=
  fun key => bool_decide (key = lit "transcribe_upload").

Definition corrupt_upload : externals :=
  scenario (Some corrupt_file) transcribe_clicked nothing_typed model_error
    silence engine_ok.

(** A sound upload of the words " hello ", with the button pressed. *)
Definition hello_file : uploaded_file :=
  {| file_name := lit "hello.ogg"; getvalue := [x4f; x67; x67; x53] |}.

Definition hello_upload : externals :=
  scenario (Some hello_file) transcribe_clicked nothing_typed
    (hears (lit " hello ")) silence engine_ok.

(** An upload heard as " hello " whose temporary file cannot be removed. *)
Definition undeletable_upload : externals :=
  {| ext_file_uploader := Some hello_file;
     ext_button := transcribe_clicked;
     ext_text_area := nothing_typed;
     ext_load_model := fun _ => None;
     ext_transcribe := hears (lit " hello ");
     ext_tempdir := lit "/tmp";
     ext_tempnames := [lit "a1b2c3d4"];
     ext_create := fun _ => None;
     ext_write := fun _ _ => None;
     ext_unlink := fun _ => Some (Exception (lit "[Errno 13] Permission denied"));
     ext_rec := silence;
     ext_wait := None;
     ext_init := None;
     ext_setProperty := fun _ _ _ => None;
     ext_say := engine_ok;
     ext_runAndWait := fun _ => None |}.

(** "Start Recording" pressed; the model hears " hello ". *)
Definition record_clicked : str → bool :=
  fun key => bool_decide (key = lit "record_transcribe").

Definition hello_recording : externals :=
  scenario None record_clicked nothing_typed (hears (lit " hello ")) silence
    engine_ok.

(** "hello world" typed into the text-to-speech input. *)
Definition hello_typed : externals :=
  scenario None nothing_clicked
    (fun key => if bool_decide (key = lit "tts_input") then lit "hello world" else [])
    (hears []) silence engine_ok.

(** A text that closes the script's string literal and goes on as code. *)
Definition injection_text : str := [dquote] ++ lit ";alert(1);//".

(** ** Further notions *)

(** A display call, as opposed to a call of a library that acts on the
    model, the files or the devices. *)
Definition is_ui (e : event) : Prop :=
  match e with
  | Ui _ => True
  | _ => False
  end.

(** A text with no whitespace at either end. *)
Definition is_trimmed (t : str) : Prop :=
  (∀ c, head t = Some c → isspace c = false)
  ∧ (∀ c, last t = Some c → isspace c = false).

(** What the model makes of what the microphone yields, whichever button
    started the recording. *)
Definition heard (ext : externals) (model : handle) : attempt :=
  match recorded ext with
  | None => AttemptFailed
  | Some a =>
      match ext_transcribe ext model (AudioArray a) with
      | Ok r => AttemptSucceeded (strip (result_text r))
      | Raise _ => AttemptFailed
      end
  end.

(** The engine calls [speak_text] makes for a text. *)
Definition spoken (ext : externals) (engine : handle) (t : str) : list event :=
  if truthy t then
    EngineSay engine t
    :: match ext_say ext engine t with
       | None => [EngineRunAndWait engine]
       | Some _ => []
       end
  else [].

(** A character that means nothing special to the markup around the text,
    read as HTML or as JavaScript, unless it is a double quote: no
    backslash, line break or line separator, no [<] and no NUL. *)
Definition plain_in_markup (c : N) : Prop :=
  (c =? backslash) = false ∧ is_line_terminator c = false
  ∧ (c =? less_than) = false ∧ (c =? 0) = false
  ∧ (c =? 0x2028) = false ∧ (c =? 0x2029) = false.

(** ** Further inputs *)

(** "Record and Repeat" pressed; the model hears " hello ". *)
Definition hello_repeat : externals :=
  scenario None (fun key => bool_decide (key = lit "record_repeat"))
    nothing_typed (hears (lit " hello ")) silence engine_ok.

(** "Speak Text" pressed with "hello world" typed. *)
Definition hello_spoken : externals :=
  scenario None (fun key => bool_decide (key = lit "speak_text"))
    (fun key => if bool_decide (key = lit "tts_input") then lit "hello world" else [])
    (hears []) silence engine_ok.

(** "Start Recording" pressed with no working microphone. *)
Definition failed_recording : externals :=
  scenario None record_clicked nothing_typed (hears []) device_error engine_ok.

(** A session of [speech_recognition.py] after its first run. *)
Definition loaded_world : world :=
  run_session SpeechRecognition.main [quiet] initial_world.

(** * Properties *)

(** ** Strings *)

Lemma last_rev {A} (l : list A) : last (rev l) = head l.
Proof. rewrite rev_alt. apply (last_reverse l). Qed.

Lemma lstrip_spec (s : str) :
  ∃ l, s = l ++ lstrip s ∧ Forall (fun c => isspace c = true) l
       ∧ ∀ c, head (lstrip s) = Some c → isspace c = false.
Proof.
  induction s as [|c s IH]; simpl.
  - exists []. repeat split; [constructor | discriminate].
  - destruct (isspace c) eqn:Hc.
    + destruct IH as (l & Hs & Hl & Hh).
      exists (c :: l). repeat split; [simpl; congruence | by constructor | done].
    + exists []. repeat split; [constructor |].
      intros c' [= <-]. done.
Qed.

(** [strip] removes exactly a run of whitespace at either end. *)
Lemma strip_spec (s : str) :
  ∃ l r, s = l ++ strip s ++ r
         ∧ Forall (fun c => isspace c = true) l
         ∧ Forall (fun c => isspace c = true) r
         ∧ (∀ c, head (strip s) = Some c → isspace c = false)
         ∧ (∀ c, last (strip s) = Some c → isspace c = false).
Proof.
  destruct (lstrip_spec s) as (l & Hs & Hl & Hh).
  destruct (lstrip_spec (rev (lstrip s))) as (r & Hr & Hrs & Hrh).
  assert (Ht : lstrip s = strip s ++ rev r).
  { unfold strip, rstrip. rewrite <- rev_app_distr, <- Hr. by rewrite rev_involutive. }
  exists l, (rev r). repeat split.
  - by rewrite <- Ht.
  - done.
  - by apply Forall_rev.
  - intros c Hc. apply Hh. rewrite Ht.
    destruct (strip s); simpl in *; [discriminate | done].
  - intros c Hc. apply Hrh. unfold strip, rstrip in Hc.
    by rewrite last_rev in Hc.
Qed.

Lemma split_from_length (tok s : str) :
  length (split_from tok s)
  = (match tok with [] => 0 | _ => 1 end
     + token_starts (match tok with [] => true | _ => false end) s)%nat.
Proof.
  revert tok. induction s as [|c s IH]; intros tok; simpl.
  - destruct tok; reflexivity.
  - destruct (isspace c).
    + destruct tok; simpl; rewrite IH; reflexivity.
    + rewrite IH. destruct tok; simpl; lia.
Qed.

(** Every element [split] returns is a token: not empty, no whitespace. *)
Lemma split_from_tokens (tok s : str) :
  Forall (fun c => isspace c = false) tok →
  Forall (fun t => t ≠ [] ∧ Forall (fun c => isspace c = false) t)
         (split_from tok s).
Proof.
  revert tok. induction s as [|c s IH]; intros tok Htok; simpl.
  - destruct tok as [|d tok]; constructor; [|constructor].
    split; [|by apply Forall_rev].
    intros H. apply (f_equal (@length N)) in H. rewrite length_rev in H. done.
  - destruct (isspace c) eqn:Hc.
    + destruct tok as [|d tok]; [by apply IH|].
      constructor; [|by apply IH].
      split; [|by apply Forall_rev].
      intros H. apply (f_equal (@length N)) in H. rewrite length_rev in H. done.
    + apply IH. by constructor.
Qed.

(** ** Running the monad *)

Lemma bind_ok {A B} (m : M A) (k : A → M B) w a w' :
  m w = (Ok a, w') → bind m k w = k a w'.
Proof. unfold bind. by intros ->. Qed.

Lemma bind_raise {A B} (m : M A) (k : A → M B) w e w' :
  m w = (Raise e, w') → bind m k w = (Raise e, w').
Proof. unfold bind. by intros ->. Qed.

Lemma bind_modify {B} (f : world → world) (k : unit → M B) w :
  bind (modify f) k w = k tt (f w).
Proof. reflexivity. Qed.

Lemma bind_ret {A B} (a : A) (k : A → M B) w : bind (ret a) k w = k a w.
Proof. reflexivity. Qed.

Lemma trace_emit e w : trace (emit e w) = trace w ++ [e].
Proof. reflexivity. Qed.

Ltac streamlit :=
  unfold st_info, st_warning, st_error, st_success, st_write, st_title,
    st_markdown, st_header, st_tabs, st_audio, st_components_v1_html,
    st_file_uploader, st_button, st_text_area, st_text_area_value in *.

Ltac step := cbv [bind ret modify get raise try_except call].

(** ** The markup for browser-side synthesis *)

Lemma get_audio_player_html_splice (text : str) :
  App.get_audio_player_html text = html_before_text ++ text ++ html_after_text.
Proof.
  unfold App.get_audio_player_html, html_before_text, html_after_text.
  cbn [join_lines]. by rewrite <- !app_assoc.
Qed.

Lemma literal_of_markup (text : str) :
  drop (length html_before_text) (App.get_audio_player_html text)
  = text ++ html_after_text.
Proof. rewrite get_audio_player_html_splice. apply drop_app_length. Qed.

Lemma html_after_text_quote : html_after_text = dquote :: script_after_literal.
Proof. reflexivity. Qed.

(** A text free of quotes, backslashes and line terminators is read back
    whole as the body of the literal. *)
Lemma js_string_literal_plain (text body rest : str) :
  Forall (fun c => (c =? dquote) = false ∧ (c =? backslash) = false
                   ∧ is_line_terminator c = false) text →
  js_string_literal body (text ++ dquote :: rest) = Some (rev body ++ text, rest).
Proof.
  revert body. induction text as [|c text IH]; intros body Hp.
  - simpl. by rewrite app_nil_r.
  - inversion Hp as [|? ? (Hq & Hb & Ht) Hp']; subst.
    cbn [app js_string_literal]. rewrite Hq, Hb, Ht, IH by done.
    simpl. by rewrite <- app_assoc.
Qed.

(** Any text with a quote that follows plain characters ends the literal
    early: what comes after that quote is read as script code. *)
Lemma quote_ends_literal (pre post : str) :
  Forall (fun c => (c =? dquote) = false ∧ (c =? backslash) = false
                   ∧ is_line_terminator c = false) pre →
  js_string_literal []
    (drop (length html_before_text)
       (App.get_audio_player_html (pre ++ dquote :: post)))
  = Some (pre, post ++ html_after_text)
  ∧ ¬ embedded_as_data (App.get_audio_player_html (pre ++ dquote :: post)).
Proof.
  intros Hp.
  assert (Hlit : js_string_literal []
                   (drop (length html_before_text)
                      (App.get_audio_player_html (pre ++ dquote :: post)))
                 = Some (pre, post ++ html_after_text)).
  { rewrite literal_of_markup, <- app_assoc. cbn [app].
    by rewrite js_string_literal_plain. }
  split; [exact Hlit|].
  intros [[body Hb] _]. rewrite Hlit in Hb. injection Hb as _ Hb.
  apply (f_equal (@length N)) in Hb.
  rewrite length_app, html_after_text_quote in Hb. cbn [length] in Hb. lia.
Qed.

(** C1: for the text made of a double quote followed by [;alert(1);//] the
    markup is the template with the text spliced in unchanged; the script's string literal then ends at the
    text's own quote with an empty body, the rest of the text follows it as
    script code, and the text is not embedded as data. *)
Theorem get_audio_player_html_injection :
  App.get_audio_player_html injection_text
  = html_before_text ++ injection_text ++ html_after_text
  ∧ js_string_literal []
      (drop (length html_before_text) (App.get_audio_player_html injection_text))
    = Some ([], lit ";alert(1);//" ++ html_after_text)
  ∧ ¬ embedded_as_data (App.get_audio_player_html injection_text).
Proof.
  split; [apply get_audio_player_html_splice|].
  split; [by rewrite literal_of_markup|].
  intros [[body Hb] _]. rewrite literal_of_markup in Hb.
  vm_compute in Hb. discriminate Hb.
Qed.

(** ** Recording *)

Lemma record_audio_never_raises (ext : externals) (d s : N) (w : world) :
  ∃ r, fst (SpeechRecognition.record_audio ext d s w) = Ok r.
Proof.
  unfold SpeechRecognition.record_audio, sd_rec, sd_wait. streamlit. step.
  destruct (ext_rec ext (d * s) s 1); [destruct (ext_wait ext)|]; eauto.
Qed.

(** C4: when [sd.rec] raises, or [sd.wait] raises after it, [record_audio]
    returns normally with [None], the last thing it shows is the error
    message "Error recording audio: ..." carrying the exception's text, and
    files and session state are untouched. *)
Theorem record_audio_device_failure (ext : externals) (d s : N) (w : world)
  (e : exn) :
  ext_rec ext (d * s) s 1 = Raise e
  ∨ ((∃ a, ext_rec ext (d * s) s 1 = Ok a) ∧ ext_wait ext = Some e) →
  fst (SpeechRecognition.record_audio ext d s w) = Ok None
  ∧ last (trace (snd (SpeechRecognition.record_audio ext d s w)))
    = Some (Ui (StError (lit "Error recording audio: " ++ exn_str e)))
  ∧ fs (snd (SpeechRecognition.record_audio ext d s w)) = fs w
  ∧ session (snd (SpeechRecognition.record_audio ext d s w)) = session w.
Proof.
  unfold SpeechRecognition.record_audio, sd_rec, sd_wait. streamlit. step.
  intros [Hrec | [[a Hrec] Hwait]]; rewrite Hrec; [|rewrite Hwait];
    cbn [fst snd trace emit fs session]; by rewrite last_snoc.
Qed.

Lemma record_audio_device_failure_witness :
  fst (SpeechRecognition.record_audio broken_microphone 5 16000 initial_world)
  = Ok None
  ∧ last (trace (snd (SpeechRecognition.record_audio broken_microphone 5 16000
                        initial_world)))
    = Some (Ui (StError (lit "Error recording audio: Error querying device -1"))).
Proof.
  pose proof (record_audio_device_failure broken_microphone 5 16000
                initial_world (Exception (lit "Error querying device -1"))
                (or_introl eq_refl)) as (H1 & H2 & _).
  split; [exact H1 | exact H2].
Defined.

Lemma ndsize_np_squeeze (a : ndarray) : ndsize (np_squeeze a) = ndsize a.
Proof.
  unfold ndsize, np_squeeze. cbn [shape].
  induction (shape a) as [|d l IH]; [done|].
  rewrite filter_cons. destruct (decide (d ≠ 1)) as [Hd|Hd]; cbn [foldr].
  - by rewrite IH.
  - apply dec_stable in Hd. subst d. rewrite IH. lia.
Qed.

(** C5: with a device that returns [frames] rows of one channel, a
    successful [record_audio(duration, samplerate)] returns a buffer of
    exactly [duration * samplerate] samples; with the defaults 5 and 16000
    it is a one-dimensional array of 80000 samples. *)
Theorem record_audio_sample_count (ext : externals) (d s : N) (w : world)
  (buf : ndarray) :
  device_contract ext →
  fst (SpeechRecognition.record_audio ext d s w) = Ok (Some buf) →
  N.of_nat (length (data buf)) = d * s
  ∧ ndsize buf = d * s
  ∧ (d = SpeechRecognition.duration → s = SpeechRecognition.samplerate →
     shape buf = [80000] ∧ N.of_nat (length (data buf)) = 80000).
Proof.
  intros Hdev. unfold SpeechRecognition.record_audio, sd_rec, sd_wait.
  streamlit. step.
  destruct (ext_rec ext (d * s) s 1) as [a|e] eqn:Hrec; [|discriminate].
  destruct (Hdev _ _ _ _ Hrec) as [Hshape Hlen].
  destruct (ext_wait ext); [discriminate|].
  cbn [fst]. intros [= <-].
  assert (Hsize : ndsize a = d * s).
  { unfold ndsize. rewrite Hshape. cbn [foldr]. lia. }
  split; [cbn [np_squeeze data]; lia|].
  split; [by rewrite ndsize_np_squeeze|].
  intros -> ->. split; [|cbn [np_squeeze data]; by rewrite Hlen].
  unfold np_squeeze. cbn [shape]. rewrite Hshape. reflexivity.
Qed.

Lemma silence_keeps_contract file clicked typed transcribe say :
  device_contract (scenario file clicked typed transcribe silence say).
Proof.
  intros frames sr channels a [= <-]. cbn [shape data].
  split; [done|]. rewrite length_replicate. apply N2Nat.id.
Qed.

Lemma record_audio_sample_count_witness :
  ∃ buf,
    fst (SpeechRecognition.record_audio quiet SpeechRecognition.duration
           SpeechRecognition.samplerate initial_world) = Ok (Some buf)
    ∧ shape buf = [80000] ∧ N.of_nat (length (data buf)) = 80000.
Proof.
  eexists. split; [reflexivity|].
  eapply (record_audio_sample_count quiet SpeechRecognition.duration
            SpeechRecognition.samplerate initial_world).
  - apply silence_keeps_contract.
  - reflexivity.
  - reflexivity.
  - reflexivity.
Defined.

(** ** Speaking *)

Lemma engine_calls_app (t1 t2 : list event) :
  engine_calls (t1 ++ t2) = engine_calls t1 ++ engine_calls t2.
Proof.
  induction t1 as [|e t1 IH]; [done|].
  cbn [app engine_calls]. destruct (is_engine_call e); cbn [app]; by rewrite IH.
Qed.

(** C6, as stated, fails when [engine.say] raises: the engine is asked to
    say the text once and [runAndWait] is never invoked. *)
Lemma speak_text_say_raises :
  truthy (lit "hi") = true
  ∧ engine_calls (trace (snd (SpeechRecognition.speak_text broken_engine 1
                                (lit "hi") initial_world)))
    = [EngineSay 1 (lit "hi")]
  ∧ engine_calls (trace (snd (SpeechRecognition.speak_text broken_engine 1
                                (lit "hi") initial_world)))
    ≠ [EngineSay 1 (lit "hi"); EngineRunAndWait 1].
Proof. repeat split. intros [=]. Qed.

(** C6, amended: [speak_text] never raises.  With empty text it makes no
    engine call and shows the warning.  With non-empty text it invokes
    [engine.say] on the text exactly once; when that call returns normally
    it then invokes [engine.runAndWait] exactly once, and when it raises
    [runAndWait] is not invoked and the error is shown. *)
Theorem speak_text_engine_calls (ext : externals) (engine : handle)
  (text : str) (w : world) :
  let w' := snd (SpeechRecognition.speak_text ext engine text w) in
  fst (SpeechRecognition.speak_text ext engine text w) = Ok tt
  ∧ (text = [] →
     engine_calls (trace w') = engine_calls (trace w)
     ∧ trace w' = trace w
                  ++ [Ui (StWarning (lit "No text to speak. Please enter some text."))])
  ∧ (text ≠ [] →
     match ext_say ext engine text with
     | None =>
         engine_calls (trace w')
         = engine_calls (trace w) ++ [EngineSay engine text; EngineRunAndWait engine]
     | Some e =>
         engine_calls (trace w') = engine_calls (trace w) ++ [EngineSay engine text]
         ∧ last (trace w')
           = Some (Ui (StError (lit "Error speaking text: " ++ exn_str e)))
     end).
Proof.
  unfold SpeechRecognition.speak_text, engine_say, engine_runAndWait.
  streamlit. step.
  destruct text as [|c text]; cbn [truthy negb].
  - cbn [fst snd trace emit]. split; [done|]. split; [|done].
    intros _. split; [|done]. by rewrite engine_calls_app, app_nil_r.
  - destruct (ext_say ext engine (c :: text)) as [e|] eqn:Hsay;
      [|destruct (ext_runAndWait ext engine) as [e|] eqn:Hrun];
      cbn [fst snd trace emit]; (split; [done|]); (split; [done|]); intros _;
      rewrite ?last_snoc, !engine_calls_app; cbn [engine_calls is_engine_call];
      rewrite ?app_nil_r, <- ?app_assoc; done.
Qed.

Lemma speak_text_engine_calls_witness :
  engine_calls (trace (snd (SpeechRecognition.speak_text quiet 1 (lit "hi")
                              initial_world)))
  = [EngineSay 1 (lit "hi"); EngineRunAndWait 1].
Proof.
  pose proof (speak_text_engine_calls quiet 1 (lit "hi") initial_world)
    as (_ & _ & H).
  apply H. discriminate.
Defined.

(** ** Transcribing an upload *)

Lemma first_unused_Some (ext : externals) (sfx : str)
  (files : gmap (list N) bytes) (names : list str) (p : str) :
  first_unused ext sfx files names = Some p →
  files !! p = None ∧ ∃ n, n ∈ names ∧ p = temp_path ext sfx n.
Proof.
  induction names as [|n names IH]; [discriminate|]. cbn [first_unused].
  destruct (files !! temp_path ext sfx n) eqn:Hn.
  - intros H. destruct (IH H) as (Hp & n' & Hin & ->).
    split; [done|]. exists n'. split; [by right | done].
  - intros [= <-]. split; [done|]. exists n. split; [by left | done].
Qed.


(** The [try] block of [transcribe_uploaded_audio], path by path. *)
Lemma transcribe_uploaded_audio_try_run (ext : externals) (model : handle)
  (file : uploaded_file) (w : world) :
  match first_unused ext (lit ".wav") (fs w) (ext_tempnames ext) with
  | None =>
      App.transcribe_uploaded_audio_try ext model file w
      = (Raise (Exception (lit "No usable temporary file name found")),
         emit transcribing w)
  | Some p =>
      let content := getvalue file in
      let audio := AudioPath p (Some content) in
      let after (evs : list event) (files : gmap (list N) bytes) :=
        {| trace := trace w ++ transcribing :: TempfileCreate p :: evs;
           fs := files; resource_cache := resource_cache w;
           next_handle := next_handle w; session := session w |} in
      App.transcribe_uploaded_audio_try ext model file w
      = match ext_create ext p with
        | Some x => (Raise x, after [] (fs w))
        | None =>
        match ext_write ext p content with
        | Some x => (Raise x, after [FileWrite p content] (<[p := []]> (fs w)))
        | None =>
        match ext_transcribe ext model audio with
        | Raise x =>
            (Raise x, after [FileWrite p content; ModelTranscribe model audio]
                        (<[p := content]> (fs w)))
        | Ok r =>
        match ext_unlink ext p with
        | Some x =>
            (Raise x, after [FileWrite p content; ModelTranscribe model audio;
                             OsUnlink p]
                        (<[p := content]> (fs w)))
        | None =>
            (Ok (strip (result_text r)),
             after [FileWrite p content; ModelTranscribe model audio; OsUnlink p;
                    Ui (StWrite (0x1F4DD :: lit " Transcribed Text: "
                                 ++ strip (result_text r)))]
               (fs w))
        end end end end
  end.
Proof.
  unfold App.transcribe_uploaded_audio_try, NamedTemporaryFile, tmp_file_write,
    model_transcribe_path, model_transcribe, os_unlink. streamlit. step.
  cbn [fs emit].
  destruct (first_unused _ _ _ _) as [p|] eqn:Hp; [|done].
  destruct (first_unused_Some _ _ _ _ _ Hp) as [Hfresh _].
  destruct (ext_create ext p).
  { unfold emit; cbn [trace fs resource_cache next_handle session].
    by rewrite <- !app_assoc. }
  cbn [fs set_fs emit]. rewrite !lookup_insert_eq. cbn [default app].
  rewrite insert_insert_eq.
  destruct (ext_write ext p (getvalue file)).
  { unfold emit, set_fs; cbn [trace fs resource_cache next_handle session].
    by rewrite <- !app_assoc. }
  cbn [fs set_fs emit]. rewrite !lookup_insert_eq.
  destruct (ext_transcribe ext model _).
  2:{ unfold emit, set_fs; cbn [trace fs resource_cache next_handle session].
      by rewrite <- !app_assoc. }
  destruct (ext_unlink ext p).
  { unfold emit, set_fs; cbn [trace fs resource_cache next_handle session].
    by rewrite <- !app_assoc. }
  unfold emit, set_fs; cbn [trace fs resource_cache next_handle session].
  rewrite delete_insert_eq, delete_id by done.
  by rewrite <- !app_assoc.
Qed.

Lemma transcribe_uploaded_audio_never_raises (ext : externals) (model : handle)
  (file : option uploaded_file) (w : world) :
  ∃ t, fst (App.transcribe_uploaded_audio ext model file w) = Ok t.
Proof.
  destruct file as [file|]; [|by eexists].
  unfold App.transcribe_uploaded_audio, try_except.
  destruct (App.transcribe_uploaded_audio_try ext model file w) as [[t|e] w'];
    by eexists.
Qed.

(** The upload path when the temporary file is created and written. *)
Lemma transcribe_uploaded_audio_written (ext : externals) (model : handle)
  (file : uploaded_file) (w : world) (p : str) :
  first_unused ext (lit ".wav") (fs w) (ext_tempnames ext) = Some p →
  ext_create ext p = None →
  ext_write ext p (getvalue file) = None →
  let audio := AudioPath p (Some (getvalue file)) in
  let w' := snd (App.transcribe_uploaded_audio ext model (Some file) w) in
  match ext_transcribe ext model audio with
  | Raise e =>
      fst (App.transcribe_uploaded_audio ext model (Some file) w) = Ok []
      ∧ trace w' = trace w ++ [transcribing; TempfileCreate p;
                              FileWrite p (getvalue file);
                              ModelTranscribe model audio;
                              Ui (StError (lit "Error transcribing audio: "
                                           ++ exn_str e))]
      ∧ fs w' = <[p := getvalue file]> (fs w)
  | Ok r =>
      match ext_unlink ext p with
      | Some e =>
          fst (App.transcribe_uploaded_audio ext model (Some file) w) = Ok []
          ∧ fs w' = <[p := getvalue file]> (fs w)
      | None =>
          fst (App.transcribe_uploaded_audio ext model (Some file) w)
          = Ok (strip (result_text r))
          ∧ trace w' = trace w ++ [transcribing; TempfileCreate p;
                                  FileWrite p (getvalue file);
                                  ModelTranscribe model audio; OsUnlink p;
                                  Ui (StWrite (0x1F4DD :: lit " Transcribed Text: "
                                               ++ strip (result_text r)))]
          ∧ fs w' = fs w
      end
  end.
Proof.
  intros Hp Hc Hw audio w'. subst w'.
  pose proof (transcribe_uploaded_audio_try_run ext model file w) as Hrun.
  rewrite Hp in Hrun. cbv zeta in Hrun. rewrite Hc, Hw in Hrun.
  unfold App.transcribe_uploaded_audio, try_except. fold audio in Hrun.
  destruct (ext_transcribe ext model audio) as [r|e].
  - destruct (ext_unlink ext p) as [e|]; rewrite Hrun; [|done].
    streamlit. step. done.
  - rewrite Hrun. streamlit. step. cbn [fst snd trace emit fs].
    by rewrite <- !app_assoc.
Qed.

Lemma strip_trimmed (s : str) : trimmed_of s (strip s).
Proof. apply strip_spec. Qed.

(** C3, as stated, fails for an upload: the model call succeeds on the
    temporary file and returns " hello ", but [os.unlink] then raises and
    the function returns the empty string, not the trimmed text. *)
Lemma model_success_is_not_enough :
  let path := lit "/tmp/tmpa1b2c3d4.wav" in
  let audio := AudioPath path (Some (getvalue hello_file)) in
  let run := App.transcribe_uploaded_audio undeletable_upload 0 (Some hello_file)
               initial_world in
  ModelTranscribe 0 audio ∈ trace (snd run)
  ∧ ext_transcribe undeletable_upload 0 audio
    = Ok {| result_text := lit " hello "; result_language := lit "en" |}
  ∧ fst run = Ok []
  ∧ fst run ≠ Ok (strip (lit " hello ")).
Proof.
  cbv zeta.
  assert (Hrun : fst (App.transcribe_uploaded_audio undeletable_upload 0
                        (Some hello_file) initial_world) = Ok [])
    by (vm_compute; reflexivity).
  split.
  { apply (list_elem_of_lookup_2 _ 3%nat). vm_compute. reflexivity. }
  split; [reflexivity|]. split; [exact Hrun|].
  rewrite Hrun. vm_compute. discriminate.
Qed.

(** C3, amended: neither transcription function ever raises.  Without input
    each returns the empty string after showing its warning.  Each returns
    the model's text without the whitespace at its two ends when the whole
    attempt succeeds: for a recording, when the model call returns; for an
    upload, when the temporary file is created, written and removed and the
    model call returns.  Each returns the empty string and shows the error
    when the model call raises; an upload also returns the empty string
    when any other step raises, in particular when [os.unlink] raises after
    a model call that returned. *)
Theorem transcription_returns_trimmed_or_empty (ext : externals)
  (model : handle) (w : world) :
  SpeechRecognition.transcribe_audio ext model None w
  = (Ok [], emit (Ui (StWarning (lit "No audio recorded. Please try again."))) w)
  ∧ App.transcribe_uploaded_audio ext model None w
    = (Ok [], emit (Ui (StWarning
                          (lit "No audio uploaded. Please upload an audio file."))) w)
  ∧ (∀ audio, ∃ t, fst (SpeechRecognition.transcribe_audio ext model audio w) = Ok t)
  ∧ (∀ file, ∃ t, fst (App.transcribe_uploaded_audio ext model file w) = Ok t)
  ∧ (∀ a e,
       ext_transcribe ext model (AudioArray a) = Raise e →
       fst (SpeechRecognition.transcribe_audio ext model (Some a) w) = Ok []
       ∧ last (trace (snd (SpeechRecognition.transcribe_audio ext model (Some a) w)))
         = Some (Ui (StError (lit "Error transcribing audio: " ++ exn_str e))))
  ∧ (∀ file p e,
       first_unused ext (lit ".wav") (fs w) (ext_tempnames ext) = Some p →
       ext_create ext p = None →
       ext_write ext p (getvalue file) = None →
       ext_transcribe ext model (AudioPath p (Some (getvalue file))) = Raise e →
       fst (App.transcribe_uploaded_audio ext model (Some file) w) = Ok []
       ∧ last (trace (snd (App.transcribe_uploaded_audio ext model (Some file) w)))
         = Some (Ui (StError (lit "Error transcribing audio: " ++ exn_str e))))
  ∧ (∀ a r,
       ext_transcribe ext model (AudioArray a) = Ok r →
       fst (SpeechRecognition.transcribe_audio ext model (Some a) w)
       = Ok (strip (result_text r))
       ∧ trimmed_of (result_text r) (strip (result_text r)))
  ∧ (∀ file p r,
       first_unused ext (lit ".wav") (fs w) (ext_tempnames ext) = Some p →
       ext_create ext p = None →
       ext_write ext p (getvalue file) = None →
       ext_transcribe ext model (AudioPath p (Some (getvalue file))) = Ok r →
       ext_unlink ext p = None →
       fst (App.transcribe_uploaded_audio ext model (Some file) w)
       = Ok (strip (result_text r))
       ∧ trimmed_of (result_text r) (strip (result_text r)))
  ∧ (∀ file p r e,
       first_unused ext (lit ".wav") (fs w) (ext_tempnames ext) = Some p →
       ext_create ext p = None →
       ext_write ext p (getvalue file) = None →
       ext_transcribe ext model (AudioPath p (Some (getvalue file))) = Ok r →
       ext_unlink ext p = Some e →
       fst (App.transcribe_uploaded_audio ext model (Some file) w) = Ok [])
  ∧ (∀ file,
       fst (App.transcribe_uploaded_audio ext model (Some file) w)
       = Ok (attempt_text (upload_attempt ext (fs w) model file))).
Proof.
  split; [done|]. split; [done|].
  split.
  { intros [a|]; [|by eexists].
    unfold SpeechRecognition.transcribe_audio,
      SpeechRecognition.transcribe_audio_try, model_transcribe.
    streamlit. step.
    destruct (ext_transcribe ext model (AudioArray a)); by eexists. }
  split; [intros file; apply transcribe_uploaded_audio_never_raises|].
  split.
  { intros a e He.
    unfold SpeechRecognition.transcribe_audio,
      SpeechRecognition.transcribe_audio_try, model_transcribe.
    streamlit. step. rewrite He. cbn [fst snd trace emit].
    by rewrite last_snoc. }
  split.
  { intros file p e Hp Hc Hw He.
    pose proof (transcribe_uploaded_audio_written ext model file w p Hp Hc Hw) as H.
    cbv zeta in H. rewrite He in H. destruct H as (Hr & Ht & _).
    split; [done|]. rewrite Ht.
    change (?a ++ [?e1; ?e2; ?e3; ?e4; ?e5]) with (a ++ [e1; e2; e3; e4] ++ [e5]).
    by rewrite app_assoc, last_snoc. }
  split.
  { intros a r Hr. split; [|apply strip_trimmed].
    unfold SpeechRecognition.transcribe_audio,
      SpeechRecognition.transcribe_audio_try, model_transcribe.
    streamlit. step. by rewrite Hr. }
  split.
  { intros file p r Hp Hc Hw Hr Hu. split; [|apply strip_trimmed].
    pose proof (transcribe_uploaded_audio_written ext model file w p Hp Hc Hw) as H.
    cbv zeta in H. rewrite Hr, Hu in H. by destruct H as (? & _). }
  split.
  { intros file p r e Hp Hc Hw Hr Hu.
    pose proof (transcribe_uploaded_audio_written ext model file w p Hp Hc Hw) as H.
    cbv zeta in H. rewrite Hr, Hu in H. by destruct H as (? & _). }
  intros file.
  pose proof (transcribe_uploaded_audio_try_run ext model file w) as Hrun.
  unfold App.transcribe_uploaded_audio, try_except, upload_attempt.
  destruct (first_unused ext (lit ".wav") (fs w) (ext_tempnames ext)) as [p|];
    [|by rewrite Hrun].
  cbv zeta in Hrun. rewrite Hrun.
  destruct (ext_create ext p); [done|].
  destruct (ext_write ext p _); [done|].
  destruct (ext_transcribe ext model _); [|done].
  by destruct (ext_unlink ext p).
Qed.

Lemma transcription_returns_trimmed_or_empty_witness :
  fst (App.transcribe_uploaded_audio hello_upload 0 (Some hello_file) initial_world)
  = Ok (lit "hello")
  ∧ fst (App.transcribe_uploaded_audio corrupt_upload 0 (Some corrupt_file)
           initial_world) = Ok [].
Proof.
  pose proof (transcription_returns_trimmed_or_empty hello_upload 0 initial_world)
    as (_ & _ & _ & _ & _ & _ & _ & Hok & _).
  pose proof (transcription_returns_trimmed_or_empty corrupt_upload 0 initial_world)
    as (_ & _ & _ & _ & _ & Hfail & _).
  split.
  - apply (Hok hello_file (lit "/tmp/tmpa1b2c3d4.wav")
             {| result_text := lit " hello "; result_language := lit "en" |});
      reflexivity.
  - apply (Hfail corrupt_file (lit "/tmp/tmpa1b2c3d4.wav")
             (Exception (lit "Failed to load audio"))); reflexivity.
Defined.

(** ** The temporary file *)

(** When the model call raises, the temporary file stays on disk with the
    uploaded bytes in it: no [os.unlink] is reached. *)
Lemma temporary_file_survives_model_failure (ext : externals) (model : handle)
  (file : uploaded_file) (w : world) (p : str) (e : exn) :
  first_unused ext (lit ".wav") (fs w) (ext_tempnames ext) = Some p →
  ext_create ext p = None →
  ext_write ext p (getvalue file) = None →
  ext_transcribe ext model (AudioPath p (Some (getvalue file))) = Raise e →
  let w' := snd (App.transcribe_uploaded_audio ext model (Some file) w) in
  fs w !! p = None
  ∧ fs w' !! p = Some (getvalue file)
  ∧ OsUnlink p ∉ drop (length (trace w)) (trace w').
Proof.
  intros Hp Hc Hw He.
  pose proof (transcribe_uploaded_audio_written ext model file w p Hp Hc Hw) as H.
  cbv zeta in *. rewrite He in H. destruct H as (_ & Ht & Hfs).
  split; [by apply (first_unused_Some _ _ _ _ _ Hp)|].
  split; [by rewrite Hfs, lookup_insert_eq|].
  rewrite Ht, drop_app_length. unfold transcribing.
  rewrite !not_elem_of_cons. repeat split; try discriminate. apply not_elem_of_nil.
Qed.

(** On the success path the file is gone again when the function returns. *)
Lemma temporary_file_removed_on_success (ext : externals) (model : handle)
  (file : uploaded_file) (w : world) (p : str) (r : whisper_result) :
  first_unused ext (lit ".wav") (fs w) (ext_tempnames ext) = Some p →
  ext_create ext p = None →
  ext_write ext p (getvalue file) = None →
  ext_transcribe ext model (AudioPath p (Some (getvalue file))) = Ok r →
  ext_unlink ext p = None →
  fs (snd (App.transcribe_uploaded_audio ext model (Some file) w)) = fs w.
Proof.
  intros Hp Hc Hw Hr Hu.
  pose proof (transcribe_uploaded_audio_written ext model file w p Hp Hc Hw) as H.
  cbv zeta in H. rewrite Hr, Hu in H. by destruct H as (_ & _ & ?).
Qed.

(** C8: for an upload whose bytes make [model.transcribe] raise, the
    function returns the empty string and the temporary file
    [/tmp/tmpa1b2c3d4.wav], absent before the call, is still there
    afterwards with the uploaded bytes in it. *)
Theorem temporary_file_left_behind :
  let w' := snd (App.transcribe_uploaded_audio corrupt_upload 0
                   (Some corrupt_file) initial_world) in
  fst (App.transcribe_uploaded_audio corrupt_upload 0 (Some corrupt_file)
         initial_world) = Ok []
  ∧ fs initial_world !! lit "/tmp/tmpa1b2c3d4.wav" = None
  ∧ fs w' !! lit "/tmp/tmpa1b2c3d4.wav" = Some (getvalue corrupt_file)
  ∧ OsUnlink (lit "/tmp/tmpa1b2c3d4.wav") ∉ trace w'.
Proof.
  pose proof (temporary_file_survives_model_failure corrupt_upload 0 corrupt_file
                initial_world (lit "/tmp/tmpa1b2c3d4.wav")
                (Exception (lit "Failed to load audio"))
                eq_refl eq_refl eq_refl eq_refl) as (H0 & H1 & H2).
  pose proof (transcribe_uploaded_audio_written corrupt_upload 0 corrupt_file
                initial_world (lit "/tmp/tmpa1b2c3d4.wav")
                eq_refl eq_refl eq_refl) as (Hr & _).
  cbv zeta. split; [exact Hr|]. split; [exact H0|]. split; [exact H1|].
  exact H2.
Qed.




(** ** The resource cache *)

Section KeepsCache.
Variable ext : externals.

Lemma keeps_ret {A} (a : A) : keeps_cache (ret a).
Proof. by intros w k h. Qed.

Lemma keeps_raise {A} (e : exn) : keeps_cache (@raise A e).
Proof. by intros w k h. Qed.

Lemma keeps_get {A} (f : world → A) : keeps_cache (get f).
Proof. by intros w k h. Qed.

Lemma keeps_modify (f : world → world) :
  (∀ w, resource_cache (f w) = resource_cache w) → keeps_cache (modify f).
Proof. intros Hf w k h. unfold modify. cbn [snd]. by rewrite Hf. Qed.

Lemma keeps_bind {A B} (m : M A) (f : A → M B) :
  keeps_cache m → (∀ a, keeps_cache (f a)) → keeps_cache (bind m f).
Proof.
  intros Hm Hf w k h Hk. unfold bind. specialize (Hm w k h Hk).
  destruct (m w) as [[a|e] w']; cbn [snd] in *; [by apply Hf | done].
Qed.

Lemma keeps_try_except {A} (body : M A) (handler : exn → M A) :
  keeps_cache body → (∀ e, keeps_cache (handler e)) →
  keeps_cache (try_except body handler).
Proof.
  intros Hm Hf w k h Hk. unfold try_except. specialize (Hm w k h Hk).
  destruct (body w) as [[a|e] w']; cbn [snd] in *; [done | by apply Hf].
Qed.

Lemma keeps_call (e : event) (outcome : option exn) : keeps_cache (call e outcome).
Proof. intros w k h. unfold call. by destruct outcome. Qed.

Lemma keeps_session_attr {A} (field : session_state → option A) (attr : str) :
  keeps_cache (session_attr field attr).
Proof. intros w k h. unfold session_attr. by destruct (field (session w)). Qed.

Lemma keeps_new_object (e : event) (outcome : option exn) :
  keeps_cache (new_object e outcome).
Proof. intros w k h. unfold new_object. by destruct outcome. Qed.

Lemma replay_frame (elements : list ui_event) (w : world) :
  trace (replay elements w) = trace w ++ map Ui elements
  ∧ fs (replay elements w) = fs w
  ∧ resource_cache (replay elements w) = resource_cache w
  ∧ next_handle (replay elements w) = next_handle w
  ∧ session (replay elements w) = session w.
Proof.
  revert w. induction elements as [|e elements IH]; intros w.
  - cbn. by rewrite app_nil_r.
  - cbn [replay foldl]. destruct (IH (emit (Ui e) w)) as (Ht & Hf & Hc & Hn & Hs).
    unfold replay in *. rewrite Ht, Hf, Hc, Hn, Hs. cbn [trace emit map].
    by rewrite <- app_assoc.
Qed.

Lemma keeps_cache_resource (qualname : str) (elements : list ui_event)
  (compute : M handle) :
  keeps_cache compute → keeps_cache (cache_resource qualname elements compute).
Proof.
  intros Hb w k h Hk. unfold cache_resource.
  destruct (replay_frame elements w) as (_ & _ & Hc & _).
  destruct (resource_cache w !! qualname) as [h'|] eqn:Hq;
    [cbn [snd]; by rewrite Hc|].
  assert (Hne : qualname ≠ k).
  { intros ->. generalize (eq_trans (eq_sym Hk) Hq). discriminate. }
  rewrite <- Hc in Hk. specialize (Hb (replay elements w) k h Hk).
  destruct (compute (replay elements w)) as [[h'|e] w']; cbn [snd] in *; [|done].
  cbn [set_resource_cache resource_cache].
  by rewrite lookup_insert_ne.
Qed.

Lemma keeps_model_transcribe_path (model : handle) (p : str) :
  keeps_cache (model_transcribe_path ext model p).
Proof. by intros w k h. Qed.

Lemma keeps_model_transcribe (model : handle) (a : audio_input) :
  keeps_cache (model_transcribe ext model a).
Proof. by intros w k h. Qed.

Lemma keeps_NamedTemporaryFile (sfx : str) :
  keeps_cache (NamedTemporaryFile ext sfx).
Proof.
  intros w k h. unfold NamedTemporaryFile.
  destruct (first_unused _ _ _ _) as [p|]; [|done]. by destruct (ext_create ext p).
Qed.

Lemma keeps_tmp_file_write (p : str) (content : bytes) :
  keeps_cache (tmp_file_write ext p content).
Proof. intros w k h. unfold tmp_file_write. by destruct (ext_write _ _ _). Qed.

Lemma keeps_os_unlink (p : str) : keeps_cache (os_unlink ext p).
Proof.
  intros w k h. unfold os_unlink.
  destruct (fs w !! p); [|done]. by destruct (ext_unlink ext p).
Qed.

Lemma keeps_sd_rec (frames sr channels : N) :
  keeps_cache (sd_rec ext frames sr channels).
Proof. by intros w k h. Qed.

End KeepsCache.

Ltac keeps :=
  repeat first
    [ apply keeps_ret | apply keeps_get | apply keeps_call
    | apply keeps_session_attr | apply keeps_new_object
    | apply keeps_model_transcribe_path | apply keeps_model_transcribe
    | apply keeps_NamedTemporaryFile | apply keeps_tmp_file_write
    | apply keeps_os_unlink | apply keeps_sd_rec
    | apply keeps_modify; reflexivity
    | apply keeps_cache_resource
    | apply keeps_try_except; [|intros ?]
    | apply keeps_bind; [|intros ?]
    | match goal with
      | |- keeps_cache (match ?x with _ => _ end) => destruct x
      | |- keeps_cache (if ?x then _ else _) => destruct x
      end ].

Lemma app_main_keeps_cache (ext : externals) : keeps_cache (App.main ext).
Proof.
  unfold App.main, App.tab1, App.tab2, App.load_whisper_model,
    App.transcribe_uploaded_audio, App.transcribe_uploaded_audio_try,
    whisper_load_model, assign_whisper_model, assign_transcribed_text.
  streamlit. keeps.
Qed.

Lemma speech_recognition_main_keeps_cache (ext : externals) :
  keeps_cache (SpeechRecognition.main ext).
Proof.
  unfold SpeechRecognition.main, SpeechRecognition.tab1, SpeechRecognition.tab2,
    SpeechRecognition.tab3, SpeechRecognition.load_whisper_model,
    SpeechRecognition.init_tts_engine, SpeechRecognition.record_audio,
    SpeechRecognition.transcribe_audio, SpeechRecognition.transcribe_audio_try,
    SpeechRecognition.speak_text, whisper_load_model, pyttsx3_init,
    engine_setProperty, engine_say, engine_runAndWait, sd_wait,
    assign_whisper_model, assign_tts_engine, assign_transcribed_text,
    assign_repeated_text.
  streamlit. keeps.
Qed.

Lemma run_session_keeps_cache (script : externals → M unit)
  (runs : list externals) (w : world) (k : str) (h : handle) :
  (∀ ext, keeps_cache (script ext)) →
  resource_cache w !! k = Some h →
  resource_cache (run_session script runs w) !! k = Some h.
Proof.
  intros Hs. revert w. induction runs as [|ext runs IH]; intros w Hk; [done|].
  cbn [run_session foldl]. apply IH. by apply Hs.
Qed.

Lemma cache_resource_hit (k : str) (elements : list ui_event)
  (compute : M handle) (w : world) (h : handle) :
  resource_cache w !! k = Some h →
  cache_resource k elements compute w = (Ok h, replay elements w).
Proof. unfold cache_resource. by intros ->. Qed.

Lemma cache_resource_stored (k : str) (elements : list ui_event)
  (compute : M handle) (w w1 : world) (h : handle) :
  cache_resource k elements compute w = (Ok h, w1) →
  resource_cache w1 !! k = Some h.
Proof.
  unfold cache_resource.
  destruct (replay_frame elements w) as (_ & _ & Hc & _).
  destruct (resource_cache w !! k) as [h'|] eqn:Hk.
  - intros [= <- <-]. by rewrite Hc.
  - destruct (compute (replay elements w)) as [[h'|e] w']; [|discriminate].
    intros [= <- <-]. cbn [resource_cache set_resource_cache].
    apply lookup_insert_eq.
Qed.

(** Without the cache every load would make a new object. *)
Lemma whisper_load_model_fresh (ext : externals) (w w1 w2 : world)
  (h1 h2 : handle) :
  whisper_load_model ext (lit "tiny") w = (Ok h1, w1) →
  whisper_load_model ext (lit "tiny") w1 = (Ok h2, w2) →
  h1 ≠ h2.
Proof.
  unfold whisper_load_model, new_object.
  destruct (ext_load_model ext (lit "tiny")); [discriminate|].
  intros [= <- <-] [= <-]. cbn [next_handle set_next_handle emit]. lia.
Qed.

(** ** What a run leaves untouched *)

Section Preserves.
Context {X : Type} (f : world → X).
Hypothesis f_emit : ∀ e w, f (emit e w) = f w.
Hypothesis f_set_fs : ∀ g w, f (set_fs g w) = f w.
Hypothesis f_set_resource_cache : ∀ c w, f (set_resource_cache c w) = f w.
Hypothesis f_set_next_handle : ∀ h w, f (set_next_handle h w) = f w.
Variable ext : externals.

Lemma preserves_ret {A} (a : A) : preserves f (ret a).
Proof. by intros w. Qed.

Lemma preserves_get {A} (g : world → A) : preserves f (get g).
Proof. by intros w. Qed.

Lemma preserves_bind {A B} (m : M A) (k : A → M B) :
  preserves f m → (∀ a, preserves f (k a)) → preserves f (bind m k).
Proof.
  intros Hm Hk w. unfold bind. specialize (Hm w).
  destruct (m w) as [[a|e] w']; cbn [snd] in *; [by rewrite Hk | done].
Qed.

Lemma preserves_try_except {A} (body : M A) (handler : exn → M A) :
  preserves f body → (∀ e, preserves f (handler e)) →
  preserves f (try_except body handler).
Proof.
  intros Hm Hk w. unfold try_except. specialize (Hm w).
  destruct (body w) as [[a|e] w']; cbn [snd] in *; [done | by rewrite Hk].
Qed.

Lemma preserves_emit (e : event) : preserves f (modify (emit e)).
Proof. intros w. apply f_emit. Qed.

Lemma preserves_call (e : event) (outcome : option exn) :
  preserves f (call e outcome).
Proof. intros w. unfold call. destruct outcome; apply f_emit. Qed.

Lemma preserves_session_attr {A} (field : session_state → option A)
  (attr : str) : preserves f (session_attr field attr).
Proof. intros w. unfold session_attr. by destruct (field (session w)). Qed.

Lemma preserves_model_transcribe (model : handle) (a : audio_input) :
  preserves f (model_transcribe ext model a).
Proof. intros w. apply f_emit. Qed.

Lemma preserves_model_transcribe_path (model : handle) (p : str) :
  preserves f (model_transcribe_path ext model p).
Proof. intros w. apply f_emit. Qed.

Lemma preserves_NamedTemporaryFile (sfx : str) :
  preserves f (NamedTemporaryFile ext sfx).
Proof.
  intros w. unfold NamedTemporaryFile.
  destruct (first_unused _ _ _ _) as [p|]; [|done].
  destruct (ext_create ext p); cbn [snd]; by rewrite ?f_set_fs, f_emit.
Qed.

Lemma preserves_tmp_file_write (p : str) (content : bytes) :
  preserves f (tmp_file_write ext p content).
Proof.
  intros w. unfold tmp_file_write.
  destruct (ext_write _ _ _); cbn [snd]; by rewrite ?f_set_fs, f_emit.
Qed.

Lemma preserves_os_unlink (p : str) : preserves f (os_unlink ext p).
Proof.
  intros w. unfold os_unlink.
  destruct (fs w !! p); [destruct (ext_unlink ext p)|]; cbn [snd];
    by rewrite ?f_set_fs, f_emit.
Qed.

Lemma preserves_sd_rec (frames sr channels : N) :
  preserves f (sd_rec ext frames sr channels).
Proof. intros w. apply f_emit. Qed.

Lemma preserves_new_object (e : event) (outcome : option exn) :
  preserves f (new_object e outcome).
Proof.
  intros w. unfold new_object.
  destruct outcome; cbn [snd]; by rewrite ?f_set_next_handle, f_emit.
Qed.

Lemma preserves_replay (elements : list ui_event) (w : world) :
  f (replay elements w) = f w.
Proof.
  revert w. induction elements as [|e elements IH]; intros w; [done|].
  cbn [replay foldl]. unfold replay in IH. by rewrite IH, f_emit.
Qed.

Lemma preserves_cache_resource (qualname : str) (elements : list ui_event)
  (compute : M handle) :
  preserves f compute → preserves f (cache_resource qualname elements compute).
Proof.
  intros Hb w. unfold cache_resource. specialize (Hb (replay elements w)).
  destruct (resource_cache w !! qualname); [apply preserves_replay|].
  destruct (compute (replay elements w)) as [[h|e] w']; cbn [snd] in *;
    by rewrite ?f_set_resource_cache, Hb, preserves_replay.
Qed.

End Preserves.

Lemma preserves_modify {X} (f : world → X) (g : world → world) :
  (∀ w, f (g w) = f w) → preserves f (modify g).
Proof. intros Hg w. apply Hg. Qed.

Ltac frame :=
  repeat first
    [ apply preserves_ret | apply preserves_get | apply preserves_session_attr
    | apply preserves_emit; reflexivity
    | apply preserves_call; reflexivity
    | apply preserves_model_transcribe; reflexivity
    | apply preserves_model_transcribe_path; reflexivity
    | apply preserves_NamedTemporaryFile; reflexivity
    | apply preserves_tmp_file_write; reflexivity
    | apply preserves_os_unlink; reflexivity
    | apply preserves_sd_rec; reflexivity
    | apply preserves_new_object; reflexivity
    | apply preserves_cache_resource; [reflexivity|reflexivity|]
    | apply preserves_modify; reflexivity
    | apply preserves_try_except; [|intros ?]
    | apply preserves_bind; [|intros ?]
    | match goal with
      | |- preserves _ (match ?x with _ => _ end) => destruct x
      | |- preserves _ (if ?x then _ else _) => destruct x
      end ].

Lemma transcribe_uploaded_audio_preserves_session (ext : externals)
  (model : handle) (file : option uploaded_file) :
  preserves session (App.transcribe_uploaded_audio ext model file).
Proof.
  unfold App.transcribe_uploaded_audio, App.transcribe_uploaded_audio_try.
  streamlit. frame.
Qed.

Lemma record_audio_preserves_session (ext : externals) (d s : N) :
  preserves session (SpeechRecognition.record_audio ext d s).
Proof. unfold SpeechRecognition.record_audio, sd_wait. streamlit. frame. Qed.

Lemma transcribe_audio_preserves_session (ext : externals) (model : handle)
  (audio : option ndarray) :
  preserves session (SpeechRecognition.transcribe_audio ext model audio).
Proof.
  unfold SpeechRecognition.transcribe_audio,
    SpeechRecognition.transcribe_audio_try.
  streamlit. frame.
Qed.

Lemma speak_text_preserves_session (ext : externals) (engine : handle)
  (text : str) :
  preserves session (SpeechRecognition.speak_text ext engine text).
Proof.
  unfold SpeechRecognition.speak_text, engine_say, engine_runAndWait.
  streamlit. frame.
Qed.

(** ** The stored text *)

Lemma transcribe_uploaded_audio_value (ext : externals) (model : handle)
  (file : uploaded_file) (w : world) :
  fst (App.transcribe_uploaded_audio ext model (Some file) w)
  = Ok (attempt_text (upload_attempt ext (fs w) model file)).
Proof.
  pose proof (transcribe_uploaded_audio_try_run ext model file w) as Hrun.
  unfold App.transcribe_uploaded_audio, try_except, upload_attempt.
  destruct (first_unused ext (lit ".wav") (fs w) (ext_tempnames ext)) as [p|];
    [|by rewrite Hrun].
  cbv zeta in Hrun. rewrite Hrun.
  destruct (ext_create ext p); [done|].
  destruct (ext_write ext p _); [done|].
  destruct (ext_transcribe ext model _); [|done].
  by destruct (ext_unlink ext p).
Qed.

Lemma upload_attempt_made (ext : externals) (files : gmap (list N) bytes)
  (model : handle) (file : uploaded_file) (previous : option str) :
  most_recent_attempt previous (upload_attempt ext files model file)
  = Some (attempt_text (upload_attempt ext files model file)).
Proof.
  unfold upload_attempt.
  destruct (first_unused _ _ _ _) as [p|]; [|done].
  destruct (ext_create ext p); [done|].
  destruct (ext_write ext p _); [done|].
  destruct (ext_transcribe ext model _); [|done].
  by destruct (ext_unlink ext p).
Qed.

Lemma record_audio_value (ext : externals) (w : world) :
  fst (SpeechRecognition.record_audio ext SpeechRecognition.duration
         SpeechRecognition.samplerate w) = Ok (recorded ext).
Proof.
  unfold SpeechRecognition.record_audio, sd_rec, sd_wait, recorded.
  streamlit. step.
  change (SpeechRecognition.duration * SpeechRecognition.samplerate)
    with (5 * 16000).
  change SpeechRecognition.samplerate with 16000.
  destruct (ext_rec ext (5 * 16000) 16000 1); [|done].
  by destruct (ext_wait ext).
Qed.

Lemma transcribe_audio_value (ext : externals) (model : handle) (a : ndarray)
  (w : world) :
  fst (SpeechRecognition.transcribe_audio ext model (Some a) w)
  = Ok (match ext_transcribe ext model (AudioArray a) with
        | Ok r => strip (result_text r)
        | Raise _ => []
        end).
Proof.
  unfold SpeechRecognition.transcribe_audio,
    SpeechRecognition.transcribe_audio_try, model_transcribe.
  streamlit. step. by destruct (ext_transcribe ext model (AudioArray a)).
Qed.

(** The upload tab stores what the attempt returned. *)
Lemma app_tab1_text (ext : externals) (w : world) (model : handle) :
  whisper_model (session w) = Some model →
  transcribed_text (session (snd (App.tab1 ext w)))
  = most_recent_attempt (transcribed_text (session w))
      (app_attempt ext (fs w) model).
Proof.
  intros Hm. unfold App.tab1, app_attempt, session_attr, assign_transcribed_text.
  streamlit. step.
  destruct (ext_file_uploader ext) as [file|]; [|done].
  destruct (ext_button ext (lit "transcribe_upload")); [|done].
  cbn [session emit]. rewrite Hm.
  set (wx := emit _ (emit _ (emit _ (emit _ w)))).
  pose proof (transcribe_uploaded_audio_value ext model file wx) as Hv.
  pose proof (transcribe_uploaded_audio_preserves_session ext model (Some file) wx)
    as Hs.
  change (fs wx) with (fs w) in Hv.
  destruct (App.transcribe_uploaded_audio ext model (Some file) wx)
    as [[t|e] w'] eqn:Hcall; cbn [fst snd] in Hv, Hs; [|discriminate].
  injection Hv as ->. rewrite upload_attempt_made.
  by destruct (truthy _).
Qed.

Lemma app_tab2_preserves_session (ext : externals) :
  preserves session (App.tab2 ext).
Proof. unfold App.tab2. streamlit. frame. Qed.

(** The recording tab stores what the attempt returned, and the empty text
    when the recording failed. *)
Lemma speech_recognition_tab1_text (ext : externals) (w : world)
  (model : handle) :
  whisper_model (session w) = Some model →
  transcribed_text (session (snd (SpeechRecognition.tab1 ext w)))
  = most_recent_attempt (transcribed_text (session w))
      (recording_attempt ext model).
Proof.
  intros Hm.
  unfold SpeechRecognition.tab1, recording_attempt, session_attr,
    assign_transcribed_text.
  streamlit. step.
  destruct (ext_button ext (lit "record_transcribe")); [|done].
  set (wx := set_session _ _).
  pose proof (record_audio_value ext wx) as Hv.
  pose proof (record_audio_preserves_session ext SpeechRecognition.duration
                SpeechRecognition.samplerate wx) as Hs.
  destruct (SpeechRecognition.record_audio ext _ _ wx) as [[audio|e] w1];
    cbn [fst snd] in Hv, Hs; [|discriminate].
  injection Hv as ->.
  destruct (recorded ext) as [a|]; cbn [snd]; [|by rewrite Hs].
  rewrite Hs. subst wx. cbn [session set_session whisper_model emit]. rewrite Hm.
  pose proof (transcribe_audio_value ext model a w1) as Hv.
  destruct (SpeechRecognition.transcribe_audio ext model (Some a) w1)
    as [[t|e] w2]; cbn [fst] in Hv; [|discriminate].
  injection Hv as ->.
  by destruct (ext_transcribe ext model (AudioArray a)).
Qed.

Lemma speech_recognition_tab2_preserves_session (ext : externals) :
  preserves session (SpeechRecognition.tab2 ext).
Proof.
  unfold SpeechRecognition.tab2, SpeechRecognition.speak_text, engine_say,
    engine_runAndWait.
  streamlit. frame.
Qed.

(** "Record and Repeat" transcribes too, but stores nothing in
    [transcribed_text]. *)
Lemma speech_recognition_tab3_preserves_text (ext : externals) :
  preserves (fun w => transcribed_text (session w)) (SpeechRecognition.tab3 ext).
Proof.
  unfold SpeechRecognition.tab3, SpeechRecognition.record_audio,
    SpeechRecognition.transcribe_audio, SpeechRecognition.transcribe_audio_try,
    SpeechRecognition.speak_text, engine_say, engine_runAndWait, sd_wait,
    assign_repeated_text.
  streamlit. frame.
Qed.

(** C2, as stated, fails: after a successful transcription ("hello") a
    failed attempt leaves the empty string in the session state, not the
    output of the most recent successful attempt. *)
Lemma failed_attempt_clears_text :
  let w1 := run_session App.main [hello_upload] initial_world in
  let w2 := run_session App.main [hello_upload; corrupt_upload] initial_world in
  app_attempt hello_upload (fs initial_world) 0 = AttemptSucceeded (lit "hello")
  ∧ transcribed_text (session w1) = Some (lit "hello")
  ∧ app_attempt corrupt_upload (fs w1) 0 = AttemptFailed
  ∧ transcribed_text (session w2) = Some []
  ∧ transcribed_text (session w2)
    ≠ most_recent_successful (transcribed_text (session w1))
        (app_attempt corrupt_upload (fs w1) 0).
Proof.
  cbv zeta.
  assert (H1 : transcribed_text
                 (session (run_session App.main [hello_upload] initial_world))
               = Some (lit "hello")) by (vm_compute; reflexivity).
  assert (H2 : transcribed_text
                 (session (run_session App.main [hello_upload; corrupt_upload]
                             initial_world)) = Some [])
    by (vm_compute; reflexivity).
  assert (H3 : app_attempt corrupt_upload
                 (fs (run_session App.main [hello_upload] initial_world)) 0
               = AttemptFailed) by (vm_compute; reflexivity).
  split; [vm_compute; reflexivity|]. split; [exact H1|]. split; [exact H3|].
  split; [exact H2|]. rewrite H2, H3, H1. discriminate.
Qed.

(** The handles in the session state. *)
Lemma app_main_preserves_handles (ext : externals) (model : handle) (w : world) :
  whisper_model (session w) = Some model →
  whisper_model (session (snd (App.main ext w))) = Some model.
Proof.
  intros Hm.
  assert (H1 : preserves (fun w => whisper_model (session w)) (App.tab1 ext)).
  { unfold App.tab1, App.transcribe_uploaded_audio,
      App.transcribe_uploaded_audio_try, assign_transcribed_text.
    streamlit. frame. }
  assert (H2 : preserves (fun w => whisper_model (session w)) (App.tab2 ext)).
  { unfold App.tab2. streamlit. frame. }
  unfold App.main, assign_transcribed_text. streamlit. step. rewrite Hm.
  destruct (transcribed_text (session w));
    (set (wx := emit _ (emit _ (emit _ (emit _ _))));
     specialize (H1 wx); cbv beta in H1;
     destruct (App.tab1 ext wx) as [[[]|e] w1]; cbn [snd] in *;
       [|by rewrite H1];
     specialize (H2 w1); cbv beta in H2;
     destruct (App.tab2 ext w1) as [[[]|e] w2]; cbn [snd session emit] in *;
       by rewrite H2, H1).
Qed.

Lemma app_main_text (ext : externals) (model : handle) (w : world) :
  whisper_model (session w) = Some model →
  transcribed_text (session (snd (App.main ext w)))
  = most_recent_attempt (Some (default [] (transcribed_text (session w))))
      (app_attempt ext (fs w) model).
Proof.
  intros Hm.
  unfold App.main, assign_transcribed_text. streamlit. step. rewrite Hm.
  assert (Hrest : ∀ wx t,
            whisper_model (session wx) = Some model →
            transcribed_text (session wx) = Some t →
            fs wx = fs w →
            transcribed_text
              (session
                 (snd (let (r0, w0) := App.tab1 ext wx in
                       match r0 with
                       | Ok _ =>
                           let (r1, w1) := App.tab2 ext w0 in
                           match r1 with
                           | Ok _ =>
                               (Ok tt,
                                emit (Ui (StMarkdown (lit "Powered by OpenAI Whisper | Made with Streamlit")))
                                  (emit (Ui (StMarkdown (lit "---"))) w1))
                           | Raise e => (Raise e, w1)
                           end
                       | Raise e => (Raise e, w0)
                       end)))
            = most_recent_attempt (Some t) (app_attempt ext (fs w) model)).
  { intros wx t Hmx Htx Hfx.
    pose proof (app_tab1_text ext wx model Hmx) as H1.
    rewrite Htx, Hfx in H1.
    destruct (App.tab1 ext wx) as [[[]|e] w1]; cbn [snd] in H1; [|done].
    pose proof (app_tab2_preserves_session ext w1) as H2.
    destruct (App.tab2 ext w1) as [[[]|e] w2]; cbn [snd] in H2;
      cbn [snd session emit]; by rewrite H2. }
  destruct (transcribed_text (session w)) as [t0|] eqn:Ht; cbn [default];
    by apply Hrest.
Qed.

(** A run that finds no model in the session state loads it first. *)
Lemma app_main_loads (ext : externals) (w : world) :
  whisper_model (session w) = None →
  App.main ext w
  = match App.load_whisper_model ext w with
    | (Ok h, w0) => App.main ext (snd (assign_whisper_model h w0))
    | (Raise e, w0) => (Raise e, w0)
    end.
Proof.
  intros Hm. unfold App.main at 1, assign_whisper_model. step. rewrite Hm.
  destruct (App.load_whisper_model ext w) as [[h|e] w0]; [|done].
  unfold App.main. step. reflexivity.
Qed.

Lemma load_whisper_model_frame (ext : externals) :
  preserves (fun w => (session w, fs w)) (App.load_whisper_model ext).
Proof. unfold App.load_whisper_model, whisper_load_model. streamlit. frame. Qed.

Lemma speech_recognition_main_text (ext : externals) (model engine : handle)
  (w : world) :
  whisper_model (session w) = Some model →
  tts_engine (session w) = Some engine →
  transcribed_text (session (snd (SpeechRecognition.main ext w)))
  = most_recent_attempt (transcribed_text (session w))
      (recording_attempt ext model).
Proof.
  intros Hm He.
  unfold SpeechRecognition.main. streamlit. step. rewrite Hm, He.
  set (wx := emit _ (emit _ _)).
  pose proof (speech_recognition_tab1_text ext wx model Hm) as H1.
  change (transcribed_text (session wx)) with (transcribed_text (session w)) in H1.
  clearbody wx.
  destruct (SpeechRecognition.tab1 ext wx) as [[[]|e] w1]; cbn [snd] in H1;
    [|done].
  pose proof (speech_recognition_tab2_preserves_session ext w1) as H2.
  destruct (SpeechRecognition.tab2 ext w1) as [[[]|e] w2]; cbn [snd] in H2;
    [|cbn [snd]; by rewrite H2].
  pose proof (speech_recognition_tab3_preserves_text ext w2) as H3.
  destruct (SpeechRecognition.tab3 ext w2) as [[[]|e] w3]; cbn [snd] in H3;
    cbn [snd session emit]; rewrite H3; by rewrite H2.
Qed.

Lemma speech_recognition_main_preserves_handles (ext : externals)
  (model engine : handle) (w : world) :
  whisper_model (session w) = Some model →
  tts_engine (session w) = Some engine →
  whisper_model (session (snd (SpeechRecognition.main ext w))) = Some model
  ∧ tts_engine (session (snd (SpeechRecognition.main ext w))) = Some engine.
Proof.
  intros Hm He.
  pose (handles := fun w => (whisper_model (session w), tts_engine (session w))).
  assert (H1 : preserves handles (SpeechRecognition.tab1 ext)).
  { unfold SpeechRecognition.tab1, SpeechRecognition.record_audio,
      SpeechRecognition.transcribe_audio, SpeechRecognition.transcribe_audio_try,
      sd_wait, assign_transcribed_text.
    streamlit. frame. }
  assert (H2 : preserves handles (SpeechRecognition.tab2 ext)).
  { unfold SpeechRecognition.tab2, SpeechRecognition.speak_text, engine_say,
      engine_runAndWait.
    streamlit. frame. }
  assert (H3 : preserves handles (SpeechRecognition.tab3 ext)).
  { unfold SpeechRecognition.tab3, SpeechRecognition.record_audio,
      SpeechRecognition.transcribe_audio, SpeechRecognition.transcribe_audio_try,
      SpeechRecognition.speak_text, engine_say, engine_runAndWait, sd_wait,
      assign_repeated_text.
    streamlit. frame. }
  assert (Hall : handles (snd (SpeechRecognition.main ext w)) = handles w).
  { unfold SpeechRecognition.main. streamlit. step. rewrite Hm, He.
    set (wx := emit _ (emit _ _)).
    specialize (H1 wx).
    destruct (SpeechRecognition.tab1 ext wx) as [[[]|e] w1]; cbn [snd] in *;
      [|done].
    specialize (H2 w1).
    destruct (SpeechRecognition.tab2 ext w1) as [[[]|e] w2]; cbn [snd] in *;
      [|by rewrite H2].
    specialize (H3 w2).
    destruct (SpeechRecognition.tab3 ext w2) as [[[]|e] w3]; cbn [snd] in *;
      change (handles (emit ?e w3)) with (handles w3);
      by rewrite H3, H2. }
  unfold handles in Hall. rewrite Hm, He in Hall. by injection Hall as -> ->.
Qed.

Lemma speech_recognition_main_loads_model (ext : externals) (w : world) :
  whisper_model (session w) = None →
  SpeechRecognition.main ext w
  = match SpeechRecognition.load_whisper_model ext w with
    | (Ok h, w0) => SpeechRecognition.main ext (snd (assign_whisper_model h w0))
    | (Raise e, w0) => (Raise e, w0)
    end.
Proof.
  intros Hm. unfold SpeechRecognition.main at 1, assign_whisper_model. step.
  rewrite Hm.
  destruct (SpeechRecognition.load_whisper_model ext w) as [[h|e] w0]; [|done].
  unfold SpeechRecognition.main. step. reflexivity.
Qed.

Lemma speech_recognition_main_loads_engine (ext : externals) (w : world)
  (model : handle) :
  whisper_model (session w) = Some model →
  tts_engine (session w) = None →
  SpeechRecognition.main ext w
  = match SpeechRecognition.init_tts_engine ext w with
    | (Ok e, w0) => SpeechRecognition.main ext (snd (assign_tts_engine e w0))
    | (Raise x, w0) => (Raise x, w0)
    end.
Proof.
  intros Hm He. unfold SpeechRecognition.main at 1, assign_tts_engine. step.
  rewrite Hm, He.
  assert (Hinit : preserves session (SpeechRecognition.init_tts_engine ext)).
  { unfold SpeechRecognition.init_tts_engine, pyttsx3_init, engine_setProperty.
    frame. }
  specialize (Hinit w).
  destruct (SpeechRecognition.init_tts_engine ext w) as [[e|x] w0]; [|done].
  cbn [snd] in Hinit.
  unfold SpeechRecognition.main. step.
  cbn [session set_session whisper_model tts_engine]. by rewrite Hinit, Hm.
Qed.

Lemma speech_recognition_loaders_frame (ext : externals) :
  preserves session (SpeechRecognition.load_whisper_model ext)
  ∧ preserves session (SpeechRecognition.init_tts_engine ext).
Proof.
  split.
  - unfold SpeechRecognition.load_whisper_model, whisper_load_model.
    streamlit. frame.
  - unfold SpeechRecognition.init_tts_engine, pyttsx3_init, engine_setProperty.
    frame.
Qed.

Lemma speech_recognition_main_with_model (ext : externals) (model : handle)
  (w : world) :
  whisper_model (session w) = Some model →
  let w' := snd (SpeechRecognition.main ext w) in
  whisper_model (session w') = Some model
  ∧ transcribed_text (session w')
    = match tts_engine (session w') with
      | Some _ =>
          most_recent_attempt (transcribed_text (session w))
            (recording_attempt ext model)
      | None => transcribed_text (session w)
      end.
Proof.
  intros Hm. cbv zeta.
  destruct (tts_engine (session w)) as [engine|] eqn:He.
  - destruct (speech_recognition_main_preserves_handles ext model engine w Hm He)
      as [Hm' He'].
    rewrite Hm', He'. split; [done|].
    by apply (speech_recognition_main_text ext model engine).
  - rewrite (speech_recognition_main_loads_engine ext w model Hm He).
    pose proof (proj2 (speech_recognition_loaders_frame ext) w) as Hs.
    destruct (SpeechRecognition.init_tts_engine ext w) as [[engine|x] w0];
      cbn [snd] in Hs |- *.
    + set (w1 := snd (assign_tts_engine engine w0)).
      assert (Hm1 : whisper_model (session w1) = Some model)
        by (subst w1; cbn; by rewrite Hs).
      assert (He1 : tts_engine (session w1) = Some engine) by done.
      assert (Ht1 : transcribed_text (session w1) = transcribed_text (session w))
        by (subst w1; cbn; by rewrite Hs).
      destruct (speech_recognition_main_preserves_handles ext model engine w1
                  Hm1 He1) as [Hm' He'].
      rewrite Hm', He', <- Ht1. split; [done|].
      by apply (speech_recognition_main_text ext model engine).
    + rewrite Hs, Hm, He. done.
Qed.

(** C2, amended: after every run of either script the stored text is what
    the most recent attempt returned.  When the run made an attempt
    ("Transcribe Audio" on an upload in [app.py], "Start Recording" in
    [speech_recognition.py]) it is the model's trimmed text if the attempt
    succeeded and the empty string if it failed; when it made none it is
    what was stored before ([app.py] stores the empty string when nothing
    was stored).  A run that stops because the model or the engine cannot
    be loaded leaves the text as it was. *)
Theorem stored_text_is_last_attempt (ext : externals) (w : world) :
  let app := snd (App.main ext w) in
  let sr := snd (SpeechRecognition.main ext w) in
  transcribed_text (session app)
  = match whisper_model (session app) with
    | Some model =>
        most_recent_attempt (Some (default [] (transcribed_text (session w))))
          (app_attempt ext (fs w) model)
    | None => transcribed_text (session w)
    end
  ∧ transcribed_text (session sr)
    = match whisper_model (session sr), tts_engine (session sr) with
      | Some model, Some _ =>
          most_recent_attempt (transcribed_text (session w))
            (recording_attempt ext model)
      | _, _ => transcribed_text (session w)
      end.
Proof.
  cbv zeta. split.
  - destruct (whisper_model (session w)) as [model|] eqn:Hm.
    + rewrite (app_main_preserves_handles ext model w Hm).
      by apply app_main_text.
    + rewrite (app_main_loads ext w Hm).
      pose proof (load_whisper_model_frame ext w) as Hs. cbv beta in Hs.
      destruct (App.load_whisper_model ext w) as [[h|e] w0]; cbn [snd] in Hs |- *;
        injection Hs as Hs Hf.
      * set (w1 := snd (assign_whisper_model h w0)).
        assert (Hm1 : whisper_model (session w1) = Some h) by done.
        assert (Ht1 : transcribed_text (session w1) = transcribed_text (session w))
          by (subst w1; cbn; by rewrite Hs).
        assert (Hf1 : fs w1 = fs w) by done.
        rewrite (app_main_preserves_handles ext h w1 Hm1), <- Ht1, <- Hf1.
        by apply app_main_text.
      * by rewrite Hs, Hm.
  - destruct (whisper_model (session w)) as [model|] eqn:Hm.
    + destruct (speech_recognition_main_with_model ext model w Hm) as [Hm' Ht].
      rewrite Hm'. rewrite Ht. by destruct (tts_engine _).
    + rewrite (speech_recognition_main_loads_model ext w Hm).
      pose proof (proj1 (speech_recognition_loaders_frame ext) w) as Hs.
      destruct (SpeechRecognition.load_whisper_model ext w) as [[h|e] w0];
        cbn [snd] in Hs |- *.
      * set (w1 := snd (assign_whisper_model h w0)).
        assert (Hm1 : whisper_model (session w1) = Some h) by done.
        assert (Ht1 : transcribed_text (session w1) = transcribed_text (session w))
          by (subst w1; cbn; by rewrite Hs).
        destruct (speech_recognition_main_with_model ext h w1 Hm1) as [Hm' Ht].
        rewrite Hm', Ht, Ht1. by destruct (tts_engine _).
      * by rewrite Hs, Hm.
Qed.

(** The amended statement at work: in a session of [speech_recognition.py]
    a recording heard as " hello " stores "hello"; a run of [app.py] on an
    upload the model cannot decode stores the empty string. *)
Lemma stored_text_is_last_attempt_witness :
  let w := run_session SpeechRecognition.main [quiet] initial_world in
  transcribed_text (session (snd (SpeechRecognition.main hello_recording w)))
  = Some (lit "hello")
  ∧ transcribed_text (session (snd (App.main corrupt_upload w))) = Some [].
Proof.
  intros w.
  destruct (stored_text_is_last_attempt hello_recording w) as [_ Hrec].
  destruct (stored_text_is_last_attempt corrupt_upload w) as [Happ _].
  split; [rewrite Hrec | rewrite Happ]; reflexivity.
Defined.

(** ** The word count of [app.py] *)

(** The text-to-speech tab, event by event. *)
Lemma app_tab2_run (ext : externals) (w : world) :
  let user_text := ext_text_area ext (lit "tts_input") in
  fst (App.tab2 ext w) = Ok tt
  ∧ emits (App.tab2 ext) w
      ([ Ui (StHeader (lit "Text-to-Speech"));
         Ui (StTextArea (lit "Enter text to speak:") None None (lit "tts_input")) ]
       ++ if truthy user_text then
            [ Ui (StMarkdown (lit "Since server-side TTS isn't available in the web version, you can use your browser's built-in speech synthesis:"));
              Ui (StHtml (App.get_audio_player_html user_text) 50);
              Ui (StInfo (lit "Word count: "
                          ++ str_of_nat (whitespace_separated_tokens user_text))) ]
          else []).
Proof.
  intros user_text.
  assert (Hlen : length (split user_text) = whitespace_separated_tokens user_text).
  { unfold split, whitespace_separated_tokens. by rewrite split_from_length. }
  unfold emits, App.tab2. streamlit. step. fold user_text.
  rewrite Hlen.
  destruct (truthy user_text); cbn [fst snd trace emit];
    rewrite <- ?app_assoc; done.
Qed.

Lemma app_tab1_returns (ext : externals) (w : world) (model : handle) :
  whisper_model (session w) = Some model → fst (App.tab1 ext w) = Ok tt.
Proof.
  intros Hm. unfold App.tab1, session_attr, assign_transcribed_text.
  streamlit. step.
  destruct (ext_file_uploader ext) as [file|]; [|done].
  destruct (ext_button ext (lit "transcribe_upload")); [|done].
  cbn [session emit]. rewrite Hm.
  set (wx := emit _ (emit _ (emit _ (emit _ w)))).
  destruct (transcribe_uploaded_audio_never_raises ext model (Some file) wx)
    as [t Ht].
  destruct (App.transcribe_uploaded_audio ext model (Some file) wx)
    as [[t'|e] w']; cbn [fst] in Ht; [|discriminate].
  by destruct (truthy t').
Qed.

(** C9: the number [len(user_text.split())] is the number of
    whitespace-separated tokens of the text, 2 for "hello world".  The
    text-to-speech tab always returns normally and, for a non-empty text,
    shows "Word count: n" with that number as its last message (and no
    count for the empty text); a run of [main] with the model in the
    session state returns normally and shows that message. *)
Theorem word_count_is_token_count (ext : externals) (w : world) :
  let user_text := ext_text_area ext (lit "tts_input") in
  let shown := Ui (StInfo (lit "Word count: "
                           ++ str_of_nat (whitespace_separated_tokens user_text))) in
  length (split user_text) = whitespace_separated_tokens user_text
  ∧ whitespace_separated_tokens (lit "hello world") = 2%nat
  ∧ fst (App.tab2 ext w) = Ok tt
  ∧ emits (App.tab2 ext) w
      ([ Ui (StHeader (lit "Text-to-Speech"));
         Ui (StTextArea (lit "Enter text to speak:") None None (lit "tts_input")) ]
       ++ if truthy user_text then
            [ Ui (StMarkdown (lit "Since server-side TTS isn't available in the web version, you can use your browser's built-in speech synthesis:"));
              Ui (StHtml (App.get_audio_player_html user_text) 50);
              shown ]
          else [])
  ∧ (∀ model, whisper_model (session w) = Some model →
              fst (App.main ext w) = Ok tt
              ∧ (truthy user_text = true → shown ∈ trace (snd (App.main ext w)))).
Proof.
  intros user_text shown.
  split. { unfold split, whitespace_separated_tokens. by rewrite split_from_length. }
  split; [reflexivity|].
  destruct (app_tab2_run ext w) as [Hok Hev].
  split; [exact Hok|]. split; [exact Hev|].
  intros model Hm.
  unfold App.main, assign_transcribed_text. streamlit. step. rewrite Hm.
  assert (Hrest : ∀ wx,
            whisper_model (session wx) = Some model →
            let r := (let (r0, w0) := App.tab1 ext wx in
                      match r0 with
                      | Ok _ =>
                          let (r1, w1) := App.tab2 ext w0 in
                          match r1 with
                          | Ok _ =>
                              (Ok tt,
                               emit (Ui (StMarkdown (lit "Powered by OpenAI Whisper | Made with Streamlit")))
                                 (emit (Ui (StMarkdown (lit "---"))) w1))
                          | Raise e => (Raise e, w1)
                          end
                      | Raise e => (Raise e, w0)
                      end) in
            fst r = Ok tt ∧ (truthy user_text = true → shown ∈ trace (snd r))).
  { intros wx Hmx. cbv zeta.
    pose proof (app_tab1_returns ext wx model Hmx) as H1.
    destruct (App.tab1 ext wx) as [[[]|e] w1]; cbn [fst] in H1; [|discriminate].
    destruct (app_tab2_run ext w1) as [H2 H2ev]. unfold emits in H2ev.
    destruct (App.tab2 ext w1) as [[[]|e] w2]; cbn [fst snd] in H2, H2ev;
      [|discriminate].
    cbn [fst snd trace emit]. split; [done|]. intros Htruthy.
    rewrite H2ev. fold user_text. rewrite Htruthy. fold shown.
    rewrite !elem_of_app, !elem_of_cons. tauto. }
  destruct (transcribed_text (session w)); by apply Hrest.
Qed.

Lemma word_count_is_token_count_witness :
  Ui (StInfo (lit "Word count: 2"))
  ∈ trace (snd (App.main hello_typed
                  (run_session App.main [quiet] initial_world))).
Proof.
  destruct (word_count_is_token_count hello_typed
              (run_session App.main [quiet] initial_world))
    as (_ & _ & _ & _ & Hmain).
  destruct (Hmain 0 eq_refl) as [_ Hshown]. apply Hshown. reflexivity.
Defined.

(** ** Which calls a run makes *)

Section EmitsOnly.
Variable P : event → Prop.
Variable ext : externals.

Lemma emits_only_ret {A} (a : A) : emits_only P (ret a).
Proof. intros w. exists []. split; [by rewrite app_nil_r | constructor]. Qed.

Lemma emits_only_session_attr {A} (field : session_state → option A)
  (attr : str) : emits_only P (session_attr field attr).
Proof.
  intros w. exists []. unfold session_attr.
  destruct (field (session w)); (split; [by rewrite app_nil_r | constructor]).
Qed.

Lemma emits_only_emit (e : event) : P e → emits_only P (modify (emit e)).
Proof. intros He w. exists [e]. split; [done | by repeat constructor]. Qed.

Lemma emits_only_silent (g : world → world) :
  (∀ w, trace (g w) = trace w) → emits_only P (modify g).
Proof.
  intros Hg w. exists []. cbn [modify snd].
  split; [by rewrite Hg, app_nil_r | constructor].
Qed.

Lemma emits_only_bind {A B} (m : M A) (k : A → M B) :
  emits_only P m → (∀ a, emits_only P (k a)) → emits_only P (bind m k).
Proof.
  intros Hm Hk w. unfold bind. destruct (Hm w) as (evs1 & H1 & F1).
  destruct (m w) as [[a|e] w1]; cbn [snd] in *; [|by exists evs1].
  destruct (Hk a w1) as (evs2 & H2 & F2). exists (evs1 ++ evs2).
  split; [by rewrite H2, H1, app_assoc | by apply Forall_app].
Qed.

Lemma emits_only_try_except {A} (body : M A) (handler : exn → M A) :
  emits_only P body → (∀ e, emits_only P (handler e)) →
  emits_only P (try_except body handler).
Proof.
  intros Hm Hk w. unfold try_except. destruct (Hm w) as (evs1 & H1 & F1).
  destruct (body w) as [[a|e] w1]; cbn [snd] in *; [by exists evs1|].
  destruct (Hk e w1) as (evs2 & H2 & F2). exists (evs1 ++ evs2).
  split; [by rewrite H2, H1, app_assoc | by apply Forall_app].
Qed.

Lemma emits_only_model_transcribe_path (model : handle) (p : str) :
  (∀ c, P (ModelTranscribe model (AudioPath p c))) →
  emits_only P (model_transcribe_path ext model p).
Proof. intros HP w. eexists. split; [done | by repeat constructor]. Qed.

Lemma emits_only_NamedTemporaryFile (sfx : str) :
  (∀ p, P (TempfileCreate p)) → emits_only P (NamedTemporaryFile ext sfx).
Proof.
  intros HP w. unfold NamedTemporaryFile.
  destruct (first_unused _ _ _ _) as [p|].
  - exists [TempfileCreate p].
    destruct (ext_create ext p); (split; [done | by repeat constructor]).
  - exists []. split; [by rewrite app_nil_r | constructor].
Qed.

Lemma emits_only_tmp_file_write (p : str) (content : bytes) :
  P (FileWrite p content) → emits_only P (tmp_file_write ext p content).
Proof.
  intros HP w. unfold tmp_file_write. exists [FileWrite p content].
  destruct (ext_write _ _ _); (split; [done | by repeat constructor]).
Qed.

Lemma emits_only_os_unlink (p : str) :
  P (OsUnlink p) → emits_only P (os_unlink ext p).
Proof.
  intros HP w. unfold os_unlink. exists [OsUnlink p].
  destruct (fs w !! p); [destruct (ext_unlink ext p)|];
    (split; [done | by repeat constructor]).
Qed.

Lemma emits_only_get {A} (g : world → A) : emits_only P (get g).
Proof. intros w. exists []. split; [by rewrite app_nil_r | constructor]. Qed.

Lemma emits_only_call (e : event) (outcome : option exn) :
  P e → emits_only P (call e outcome).
Proof.
  intros He w. exists [e]. unfold call.
  destruct outcome; (split; [done | by repeat constructor]).
Qed.

Lemma emits_only_new_object (e : event) (outcome : option exn) :
  P e → emits_only P (new_object e outcome).
Proof.
  intros He w. exists [e]. unfold new_object.
  destruct outcome; (split; [done | by repeat constructor]).
Qed.

Lemma emits_only_model_transcribe (model : handle) (a : audio_input) :
  P (ModelTranscribe model a) → emits_only P (model_transcribe ext model a).
Proof. intros HP w. eexists. split; [done | by repeat constructor]. Qed.

Lemma emits_only_sd_rec (frames sr channels : N) :
  P (SdRec frames sr channels) → emits_only P (sd_rec ext frames sr channels).
Proof. intros HP w. eexists. split; [done | by repeat constructor]. Qed.

Lemma emits_only_cache_resource (qualname : str) (elements : list ui_event)
  (compute : M handle) :
  Forall (fun e => P (Ui e)) elements → emits_only P compute →
  emits_only P (cache_resource qualname elements compute).
Proof.
  intros Hel Hc w. unfold cache_resource.
  destruct (replay_frame elements w) as (Ht & _).
  assert (Hshown : Forall P (map Ui elements)) by by apply Forall_fmap.
  destruct (resource_cache w !! qualname); [by exists (map Ui elements)|].
  destruct (Hc (replay elements w)) as (evs & He & Hf).
  exists (map Ui elements ++ evs).
  split; [|by apply Forall_app].
  destruct (compute (replay elements w)) as [[h|e] w']; cbn [snd] in *;
    cbn [trace set_resource_cache]; by rewrite He, Ht, app_assoc.
Qed.

End EmitsOnly.

(** The same at one world, for a first step that depends on it. *)
Lemma emits_only_bind_at {A B} (P : event → Prop) (m : M A) (k : A → M B)
  (w : world) :
  (∃ evs, trace (snd (m w)) = trace w ++ evs ∧ Forall P evs) →
  (∀ a, emits_only P (k a)) →
  ∃ evs, trace (snd (bind m k w)) = trace w ++ evs ∧ Forall P evs.
Proof.
  intros (evs1 & H1 & F1) Hk. unfold bind.
  destruct (m w) as [[a|e] w1]; cbn [snd] in *; [|by exists evs1].
  destruct (Hk a w1) as (evs2 & H2 & F2). exists (evs1 ++ evs2).
  split; [by rewrite H2, H1, app_assoc | by apply Forall_app].
Qed.

Ltac only_emits :=
  repeat first
    [ apply emits_only_ret | apply emits_only_session_attr | apply emits_only_get
    | apply emits_only_call; exact I
    | apply emits_only_new_object; exact I
    | apply emits_only_model_transcribe; exact I
    | apply emits_only_sd_rec; exact I
    | apply emits_only_cache_resource; [by repeat constructor|]
    | apply emits_only_emit; exact I
    | apply emits_only_silent; reflexivity
    | apply emits_only_model_transcribe_path; intros; exact I
    | apply emits_only_NamedTemporaryFile; intros; exact I
    | apply emits_only_tmp_file_write; exact I
    | apply emits_only_os_unlink; exact I
    | apply emits_only_try_except; [|intros ?]
    | apply emits_only_bind; [|intros ?]
    | match goal with
      | |- emits_only _ (match ?x with _ => _ end) => destruct x
      | |- emits_only _ (if ?x then _ else _) => destruct x
      end ].

Lemma app_main_with_model_loads_nothing (ext : externals) (w : world)
  (model : handle) :
  whisper_model (session w) = Some model →
  ∃ evs, trace (snd (App.main ext w)) = trace w ++ evs
         ∧ Forall not_a_model_load evs.
Proof.
  intros Hm.
  assert (E1 : emits_only not_a_model_load (App.tab1 ext)).
  { unfold App.tab1, App.transcribe_uploaded_audio,
      App.transcribe_uploaded_audio_try, assign_transcribed_text.
    streamlit. only_emits. }
  assert (E2 : emits_only not_a_model_load (App.tab2 ext)).
  { unfold App.tab2. streamlit. only_emits. }
  unfold App.main, assign_transcribed_text. streamlit. step. rewrite Hm.
  assert (Hrest : ∀ wx evs0,
            trace wx = trace w ++ evs0 → Forall not_a_model_load evs0 →
            ∃ evs,
              trace
                (snd (let (r0, w0) := App.tab1 ext wx in
                      match r0 with
                      | Ok _ =>
                          let (r1, w1) := App.tab2 ext w0 in
                          match r1 with
                          | Ok _ =>
                              (Ok tt,
                               emit (Ui (StMarkdown (lit "Powered by OpenAI Whisper | Made with Streamlit")))
                                 (emit (Ui (StMarkdown (lit "---"))) w1))
                          | Raise e => (Raise e, w1)
                          end
                      | Raise e => (Raise e, w0)
                      end)) = trace w ++ evs
              ∧ Forall not_a_model_load evs).
  { intros wx evs0 H0 F0.
    destruct (E1 wx) as (evs1 & H1 & F1).
    destruct (App.tab1 ext wx) as [[[]|e] w1]; cbn [snd] in H1 |- *.
    2:{ exists (evs0 ++ evs1). split; [by rewrite H1, H0, app_assoc|].
        by apply Forall_app. }
    destruct (E2 w1) as (evs2 & H2 & F2).
    destruct (App.tab2 ext w1) as [[[]|e] w2]; cbn [snd trace emit] in H2 |- *.
    - exists (evs0 ++ evs1 ++ evs2
              ++ [Ui (StMarkdown (lit "---"));
                  Ui (StMarkdown (lit "Powered by OpenAI Whisper | Made with Streamlit"))]).
      split; [rewrite H2, H1, H0, <- !app_assoc; done|].
      repeat (apply Forall_app; split; [done|]). by repeat constructor.
    - exists (evs0 ++ evs1 ++ evs2).
      split; [rewrite H2, H1, H0, <- !app_assoc; done|].
      repeat (apply Forall_app; split; [done|]). done. }
  destruct (transcribed_text (session w));
    (eapply Hrest;
     [cbn [trace emit set_session]; rewrite <- !app_assoc; reflexivity
     | by repeat constructor]).
Qed.

(** A run of [app.py] never loads the model while the cache holds it. *)
Lemma app_main_cached_loads_nothing (ext : externals) (w : world) (h : handle) :
  resource_cache w !! lit "load_whisper_model" = Some h →
  ∃ evs, trace (snd (App.main ext w)) = trace w ++ evs
         ∧ Forall not_a_model_load evs.
Proof.
  intros Hc.
  destruct (whisper_model (session w)) as [model|] eqn:Hm;
    [by apply (app_main_with_model_loads_nothing ext w model)|].
  rewrite (app_main_loads ext w Hm).
  unfold App.load_whisper_model. rewrite (cache_resource_hit _ _ _ w h Hc).
  set (w1 := snd (assign_whisper_model h _)).
  destruct (app_main_with_model_loads_nothing ext w1 h eq_refl) as (evs & Ht & Hf).
  exists (Ui (StInfo (lit "Loading Whisper model...")) :: evs).
  split; [|by constructor].
  rewrite Ht. subst w1. cbn [snd assign_whisper_model modify trace set_session
                             replay foldl emit].
  by rewrite <- app_assoc.
Qed.

(** Nor does a run of [speech_recognition.py]. *)
Lemma speech_recognition_main_cached_loads_nothing (ext : externals)
  (w : world) (h : handle) :
  resource_cache w !! lit "load_whisper_model" = Some h →
  ∃ evs, trace (snd (SpeechRecognition.main ext w)) = trace w ++ evs
         ∧ Forall not_a_model_load evs.
Proof.
  intros Hc. unfold SpeechRecognition.main.
  unfold bind at 1, get at 1. cbv beta iota.
  apply emits_only_bind_at.
  - destruct (whisper_model (session w)).
    + exists []. split; [by rewrite app_nil_r | constructor].
    + unfold SpeechRecognition.load_whisper_model, bind.
      rewrite (cache_resource_hit _ _ _ w h Hc).
      exists [Ui (StInfo (lit "Loading Whisper model..."))].
      split; [done | by repeat constructor].
  - intros _.
    unfold SpeechRecognition.tab1, SpeechRecognition.tab2, SpeechRecognition.tab3,
      SpeechRecognition.init_tts_engine, SpeechRecognition.record_audio,
      SpeechRecognition.transcribe_audio, SpeechRecognition.transcribe_audio_try,
      SpeechRecognition.speak_text, pyttsx3_init, engine_setProperty, engine_say,
      engine_runAndWait, sd_wait, assign_tts_engine, assign_transcribed_text,
      assign_repeated_text.
    streamlit. only_emits.
Qed.

Lemma run_session_loads_nothing (script : externals → M unit)
  (runs : list externals) (w : world) (h : handle) :
  (∀ ext, keeps_cache (script ext)) →
  (∀ ext w, resource_cache w !! lit "load_whisper_model" = Some h →
            ∃ evs, trace (snd (script ext w)) = trace w ++ evs
                   ∧ Forall not_a_model_load evs) →
  resource_cache w !! lit "load_whisper_model" = Some h →
  ∃ evs, trace (run_session script runs w) = trace w ++ evs
         ∧ Forall not_a_model_load evs.
Proof.
  intros Hkeep Hstep. revert w.
  induction runs as [|ext runs IH]; intros w Hc.
  - exists []. split; [by rewrite app_nil_r | constructor].
  - cbn [run_session foldl].
    destruct (Hstep ext w Hc) as (evs1 & H1 & F1).
    destruct (IH (snd (script ext w)) (Hkeep ext w _ h Hc)) as (evs2 & H2 & F2).
    exists (evs1 ++ evs2). unfold run_session in H2.
    split; [by rewrite H2, H1, app_assoc | by apply Forall_app].
Qed.

(** The loader on a miss: the message, one call of [whisper.load_model],
    and the new object it made. *)
Lemma cache_miss_loads_once (ext : externals) (w w1 : world) (h : handle) :
  resource_cache w !! lit "load_whisper_model" = None →
  cache_resource (lit "load_whisper_model")
    [StInfo (lit "Loading Whisper model...")]
    (whisper_load_model ext (lit "tiny")) w = (Ok h, w1) →
  h = next_handle w
  ∧ ext_load_model ext (lit "tiny") = None
  ∧ trace w1 = trace w ++ [Ui (StInfo (lit "Loading Whisper model..."));
                          WhisperLoadModel (lit "tiny")].
Proof.
  intros Hmiss. unfold cache_resource. rewrite Hmiss.
  unfold whisper_load_model, new_object. cbn [replay foldl].
  destruct (ext_load_model ext (lit "tiny")); [discriminate|].
  intros [= <- <-]. cbn [trace emit set_next_handle set_resource_cache next_handle].
  split; [done|]. split; [done|]. by rewrite <- app_assoc.
Qed.

(** C7: the model is computed once and reused.  When a call of the loader
    returns a handle and the cache held none, that call has shown the
    loading message and called [whisper.load_model] exactly once, and the
    handle is the new object that call made.  From then on, in the same
    process and after any number of reruns of the script, whatever the
    libraries do, [whisper.load_model] is never called again and every call
    of the loader returns that same handle, only showing the loading
    message again. *)
Theorem model_loader_returns_same_handle (ext1 ext2 : externals)
  (runs : list externals) (w w1 : world) (h : handle) :
  (App.load_whisper_model ext1 w = (Ok h, w1) →
   (resource_cache w !! lit "load_whisper_model" = None →
    h = next_handle w
    ∧ ext_load_model ext1 (lit "tiny") = None
    ∧ trace w1 = trace w ++ [Ui (StInfo (lit "Loading Whisper model..."));
                            WhisperLoadModel (lit "tiny")])
   ∧ let w2 := run_session App.main runs w1 in
     (∃ evs, trace w2 = trace w1 ++ evs ∧ Forall not_a_model_load evs)
     ∧ App.load_whisper_model ext2 w2
       = (Ok h, emit (Ui (StInfo (lit "Loading Whisper model..."))) w2))
  ∧ (SpeechRecognition.load_whisper_model ext1 w = (Ok h, w1) →
     (resource_cache w !! lit "load_whisper_model" = None →
      h = next_handle w
      ∧ ext_load_model ext1 (lit "tiny") = None
      ∧ trace w1 = trace w ++ [Ui (StInfo (lit "Loading Whisper model..."));
                              WhisperLoadModel (lit "tiny")])
     ∧ let w2 := run_session SpeechRecognition.main runs w1 in
       (∃ evs, trace w2 = trace w1 ++ evs ∧ Forall not_a_model_load evs)
       ∧ SpeechRecognition.load_whisper_model ext2 w2
         = (Ok h, emit (Ui (StInfo (lit "Loading Whisper model..."))) w2)).
Proof.
  split; intros Hload;
    (split; [intros Hmiss; by apply (cache_miss_loads_once ext1 w w1 h)|]);
    pose proof (cache_resource_stored _ _ _ _ _ _ Hload) as Hstored;
    intros w2; subst w2.
  - split.
    + apply (run_session_loads_nothing App.main runs w1 h);
        [apply app_main_keeps_cache | | done].
      intros ext w0. apply app_main_cached_loads_nothing.
    + apply cache_resource_hit. apply run_session_keeps_cache;
        [apply app_main_keeps_cache | done].
  - split.
    + apply (run_session_loads_nothing SpeechRecognition.main runs w1 h);
        [apply speech_recognition_main_keeps_cache | | done].
      intros ext w0. apply speech_recognition_main_cached_loads_nothing.
    + apply cache_resource_hit. apply run_session_keeps_cache;
        [apply speech_recognition_main_keeps_cache | done].
Qed.

Lemma model_loader_returns_same_handle_witness :
  let w1 := snd (App.load_whisper_model quiet initial_world) in
  let w2 := run_session App.main [hello_upload; corrupt_upload] w1 in
  App.load_whisper_model quiet initial_world = (Ok 0, w1)
  ∧ trace w1 = [Ui (StInfo (lit "Loading Whisper model..."));
                WhisperLoadModel (lit "tiny")]
  ∧ App.load_whisper_model corrupt_upload w2
    = (Ok 0, emit (Ui (StInfo (lit "Loading Whisper model..."))) w2).
Proof.
  intros w1 w2.
  destruct (model_loader_returns_same_handle quiet corrupt_upload
              [hello_upload; corrupt_upload] initial_world w1 0)
    as [Happ _].
  destruct (Happ eq_refl) as [Hfirst Hlater].
  split; [reflexivity|]. split.
  - by destruct (Hfirst eq_refl) as (_ & _ & Ht).
  - by destruct Hlater as [_ Hhit].
Defined.

(** * Further properties *)

(** ** The markup, for every text *)

Lemma js_string_literal_line_break (pre post body : str) (c : N) :
  Forall (fun c => (c =? dquote) = false ∧ (c =? backslash) = false
                   ∧ is_line_terminator c = false) pre →
  is_line_terminator c = true →
  js_string_literal body (pre ++ c :: post) = None.
Proof.
  intros Hp Hc. revert body. induction Hp as [|d pre (Hq & Hb & Ht) Hp IH];
    intros body.
  - cbn [app js_string_literal].
    unfold is_line_terminator in Hc. apply orb_true_iff in Hc.
    assert (Hq : (c =? dquote) = false ∧ (c =? backslash) = false).
    { destruct Hc as [Hc|Hc]; apply N.eqb_eq in Hc; subst c; done. }
    destruct Hq as [-> ->]. unfold is_line_terminator.
    by destruct Hc as [-> | ->]; rewrite ?orb_true_r.
  - cbn [app js_string_literal]. by rewrite Hq, Hb, Ht, IH.
Qed.

Lemma script_data_skips_plain (pre rest : str) :
  Forall (fun c => (c =? less_than) = false) pre →
  script_element_end ScriptData (pre ++ rest)
  = script_element_end ScriptData rest.
Proof.
  induction 1 as [|c pre Hc Hpre IH]; [done|].
  cbn [app script_element_end script_step]. unfold in_script_data.
  by rewrite Hc.
Qed.

Lemma template_script_closes (text : str) :
  Forall (fun c => (c =? less_than) = false) text →
  script_element_end ScriptData
    (drop (length script_open) (App.get_audio_player_html text))
  = Some markup_after_script.
Proof.
  intros Htext. rewrite get_audio_player_html_splice.
  change html_before_text
    with (script_open ++ drop (length script_open) html_before_text).
  rewrite <- app_assoc, drop_app_length.
  rewrite script_data_skips_plain by (vm_compute; repeat constructor).
  rewrite script_data_skips_plain by done.
  vm_compute. reflexivity.
Qed.

(** X2: for a text of characters that are plain in the markup (no
    backslash, line break, line separator, [<] or NUL), the markup embeds
    the text as data exactly when it contains no double quote; it is then
    read back whole as the body of the script's literal, and the script
    element is closed by the template's own end tag. *)
Theorem text_is_data_iff_no_quote (text : str) :
  Forall plain_in_markup text →
  (embedded_as_data (App.get_audio_player_html text) ↔ dquote ∉ text)
  ∧ (dquote ∉ text →
     js_string_literal []
       (drop (length html_before_text) (App.get_audio_player_html text))
     = Some (text, script_after_literal)
     ∧ script_element_end ScriptData
         (drop (length script_open) (App.get_audio_player_html text))
       = Some markup_after_script).
Proof.
  intros Hplain.
  assert (Hsub : ∀ pre, Forall plain_in_markup pre → dquote ∉ pre →
                        Forall (fun c => (c =? dquote) = false
                                         ∧ (c =? backslash) = false
                                         ∧ is_line_terminator c = false) pre).
  { intros pre Hpre Hnq. rewrite Forall_forall in Hpre. apply Forall_forall.
    intros c Hc. destruct (Hpre c Hc) as (Hb & Ht & _). repeat split; [|done..].
    apply N.eqb_neq. intros ->. done. }
  assert (Hlt : Forall (fun c => (c =? less_than) = false) text).
  { eapply Forall_impl; [exact Hplain|]. by intros c (_ & _ & Hc & _). }
  assert (Hdata : dquote ∉ text →
                  js_string_literal []
                    (drop (length html_before_text)
                       (App.get_audio_player_html text))
                  = Some (text, script_after_literal)
                  ∧ script_element_end ScriptData
                      (drop (length script_open) (App.get_audio_player_html text))
                    = Some markup_after_script).
  { intros Hnq. split; [|by apply template_script_closes].
    rewrite literal_of_markup, html_after_text_quote.
    by rewrite js_string_literal_plain by by apply Hsub. }
  split; [|exact Hdata]. split.
  - intros Hdata' Hin.
    destruct (list_elem_of_split_l text dquote Hin) as (pre & post & -> & Hpre).
    apply Forall_app in Hplain as [Hplain _].
    by destruct (quote_ends_literal pre post (Hsub pre Hplain Hpre)) as [_ Hno].
  - intros Hnq. destruct (Hdata Hnq) as [Hjs Hhtml].
    split; [by exists text | exact Hhtml].
Qed.

Lemma text_is_data_iff_no_quote_witness :
  embedded_as_data (App.get_audio_player_html (lit "hello world")).
Proof.
  apply (text_is_data_iff_no_quote (lit "hello world")).
  - repeat constructor.
  - intros Hin. vm_compute in Hin.
    repeat (apply elem_of_cons in Hin as [Hin|Hin]; [discriminate Hin|]).
    by apply elem_of_nil in Hin.
Defined.

(** A text that ends the script element itself is not embedded as data,
    though it has no quote: the literal is cut short by the text's own
    end tag. *)
Lemma end_tag_in_text_is_not_data :
  ¬ embedded_as_data
      (App.get_audio_player_html (lit "</script><script>alert(1)</script>")).
Proof. intros [_ Hhtml]. vm_compute in Hhtml. discriminate Hhtml. Qed.

(** X3: a text with a raw line break before any quote or backslash leaves
    the script's literal unterminated: the script does not parse and the
    text is not embedded as data. *)
Theorem line_break_breaks_script (pre post : str) (c : N) :
  Forall (fun c => (c =? dquote) = false ∧ (c =? backslash) = false
                   ∧ is_line_terminator c = false) pre →
  is_line_terminator c = true →
  js_string_literal []
    (drop (length html_before_text)
       (App.get_audio_player_html (pre ++ c :: post))) = None
  ∧ ¬ embedded_as_data (App.get_audio_player_html (pre ++ c :: post)).
Proof.
  intros Hp Hc.
  assert (Hnone : js_string_literal []
                    (drop (length html_before_text)
                       (App.get_audio_player_html (pre ++ c :: post))) = None).
  { rewrite literal_of_markup, <- app_assoc. cbn [app].
    by apply js_string_literal_line_break. }
  split; [exact Hnone|]. intros [[body Hb] _]. rewrite Hnone in Hb.
  discriminate Hb.
Qed.

Lemma line_break_breaks_script_witness :
  ¬ embedded_as_data
      (App.get_audio_player_html (lit "first line" ++ newline :: lit "second line")).
Proof.
  apply (line_break_breaks_script (lit "first line") (lit "second line") newline).
  - repeat constructor.
  - reflexivity.
Defined.

(** ** The parts of [speech_recognition.py], summed up *)

Lemma record_audio_summary (ext : externals) (w : world) :
  let r := SpeechRecognition.record_audio ext SpeechRecognition.duration
             SpeechRecognition.samplerate w in
  fst r = Ok (recorded ext)
  ∧ session (snd r) = session w
  ∧ fs (snd r) = fs w
  ∧ engine_calls (trace (snd r)) = engine_calls (trace w).
Proof.
  cbv zeta. split; [apply record_audio_value|].
  split; [apply record_audio_preserves_session|].
  unfold SpeechRecognition.record_audio, sd_rec, sd_wait. streamlit. step.
  destruct (ext_rec ext _ _ _); [destruct (ext_wait ext)|];
    cbn [snd fs trace emit]; (split; [done|]);
    rewrite !engine_calls_app; cbn [engine_calls is_engine_call];
    by rewrite !app_nil_r.
Qed.

Lemma transcribe_audio_summary (ext : externals) (model : handle) (a : ndarray)
  (w : world) :
  let r := SpeechRecognition.transcribe_audio ext model (Some a) w in
  fst r = Ok (match ext_transcribe ext model (AudioArray a) with
              | Ok res => strip (result_text res)
              | Raise _ => []
              end)
  ∧ session (snd r) = session w
  ∧ fs (snd r) = fs w
  ∧ engine_calls (trace (snd r)) = engine_calls (trace w).
Proof.
  cbv zeta. split; [apply transcribe_audio_value|].
  split; [apply transcribe_audio_preserves_session|].
  unfold SpeechRecognition.transcribe_audio,
    SpeechRecognition.transcribe_audio_try, model_transcribe.
  streamlit. step.
  destruct (ext_transcribe ext model (AudioArray a));
    cbn [snd fs trace emit]; (split; [done|]);
    rewrite !engine_calls_app; cbn [engine_calls is_engine_call];
    by rewrite !app_nil_r.
Qed.

Lemma speak_text_summary (ext : externals) (engine : handle) (t : str)
  (w : world) :
  let r := SpeechRecognition.speak_text ext engine t w in
  fst r = Ok tt
  ∧ session (snd r) = session w
  ∧ fs (snd r) = fs w
  ∧ engine_calls (trace (snd r)) = engine_calls (trace w) ++ spoken ext engine t.
Proof.
  cbv zeta. split; [|split; [apply speak_text_preserves_session|]].
  - unfold SpeechRecognition.speak_text, engine_say, engine_runAndWait.
    streamlit. step.
    destruct t as [|c t]; [done|]. cbn [truthy negb].
    destruct (ext_say ext engine (c :: t)); [done|].
    by destruct (ext_runAndWait ext engine).
  - unfold SpeechRecognition.speak_text, engine_say, engine_runAndWait, spoken.
    streamlit. step.
    destruct t as [|c t]; cbn [truthy negb].
    + cbn [snd fs trace emit]. split; [done|].
      by rewrite engine_calls_app, !app_nil_r.
    + destruct (ext_say ext engine (c :: t));
        [|destruct (ext_runAndWait ext engine)];
        cbn [snd fs trace emit]; (split; [done|]);
        rewrite !engine_calls_app; cbn [engine_calls is_engine_call];
        by rewrite ?app_nil_r, <- ?app_assoc.
Qed.

(** ** Record and repeat, speak *)

(** X7: with the model and the engine in the session state, "Record and
    Repeat" returns normally and asks the engine to speak exactly the
    trimmed transcription of the recording; it makes no engine call when
    the recording or the transcription fails or the transcription is empty.
    It leaves the empty string in [repeated_text] and does not touch
    [transcribed_text]. *)
Theorem record_and_repeat_speaks_transcription (ext : externals) (w : world)
  (model engine : handle) :
  whisper_model (session w) = Some model →
  tts_engine (session w) = Some engine →
  ext_button ext (lit "record_repeat") = true →
  let w' := snd (SpeechRecognition.tab3 ext w) in
  fst (SpeechRecognition.tab3 ext w) = Ok tt
  ∧ engine_calls (trace w')
    = engine_calls (trace w) ++ spoken ext engine (attempt_text (heard ext model))
  ∧ repeated_text (session w') = Some []
  ∧ transcribed_text (session w') = transcribed_text (session w).
Proof.
  intros Hm He Hclick. cbv zeta.
  unfold SpeechRecognition.tab3, session_attr, assign_repeated_text, heard.
  streamlit. step. rewrite Hclick.
  set (wx := set_session _ _).
  assert (Hx : whisper_model (session wx) = Some model
               ∧ tts_engine (session wx) = Some engine
               ∧ repeated_text (session wx) = Some []
               ∧ transcribed_text (session wx) = transcribed_text (session w)
               ∧ engine_calls (trace wx) = engine_calls (trace w)).
  { subst wx. cbn [session set_session emit whisper_model tts_engine
                   repeated_text transcribed_text trace].
    repeat split; [done..|].
    rewrite !engine_calls_app. cbn [engine_calls is_engine_call].
    by rewrite !app_nil_r. }
  destruct Hx as (Hmx & Hex & Hrx & Htx & Hcx). clearbody wx.
  destruct (record_audio_summary ext wx) as (Hv & Hs & _ & Hc).
  destruct (SpeechRecognition.record_audio ext _ _ wx) as [[audio|e] w1];
    cbn [fst snd] in Hv, Hs, Hc; [|discriminate].
  injection Hv as ->.
  destruct (recorded ext) as [a|]; cbn [fst snd attempt_text].
  2:{ rewrite Hs, Hc, Hcx. cbn [spoken truthy]. by rewrite app_nil_r. }
  rewrite Hs, Hmx.
  destruct (transcribe_audio_summary ext model a w1) as (Hv & Hs2 & _ & Hc2).
  destruct (SpeechRecognition.transcribe_audio ext model (Some a) w1)
    as [[t|e] w2]; cbn [fst snd] in Hv, Hs2, Hc2; [|discriminate].
  injection Hv as Hv.
  assert (Ht : t = attempt_text
                     match ext_transcribe ext model (AudioArray a) with
                     | Ok r => AttemptSucceeded (strip (result_text r))
                     | Raise _ => AttemptFailed
                     end).
  { rewrite Hv. by destruct (ext_transcribe ext model (AudioArray a)). }
  rewrite <- Ht. clear Ht Hv.
  destruct (truthy t) eqn:Htruthy.
  - cbn [session emit]. rewrite Hs2, Hs, Hex.
    set (wi := emit _ w2).
    destruct (speak_text_summary ext engine t wi) as (Hv & Hs3 & _ & Hc3).
    destruct (SpeechRecognition.speak_text ext engine t wi) as [[[]|e] w3];
      cbn [fst snd] in Hv, Hs3, Hc3; [|discriminate].
    cbn [fst snd]. rewrite Hc3, Hs3. subst wi. cbn [session trace emit].
    rewrite engine_calls_app. cbn [engine_calls is_engine_call].
    rewrite app_nil_r, Hc2, Hc, Hcx, Hs2, Hs. done.
  - cbn [fst snd]. rewrite Hs2, Hs, Hc2, Hc, Hcx.
    unfold spoken. rewrite Htruthy. by rewrite app_nil_r.
Qed.

Lemma record_and_repeat_speaks_transcription_witness :
  engine_calls (trace (snd (SpeechRecognition.tab3 hello_repeat loaded_world)))
  = engine_calls (trace loaded_world)
    ++ [EngineSay 1 (lit "hello"); EngineRunAndWait 1].
Proof.
  destruct (record_and_repeat_speaks_transcription hello_repeat loaded_world 0 1
              eq_refl eq_refl eq_refl) as (_ & H & _).
  rewrite H. reflexivity.
Defined.

(** X8: with the engine in the session state, the text-to-speech tab of
    [speech_recognition.py] returns normally; when "Speak Text" is pressed
    it asks the engine to speak exactly the typed text (nothing for an empty
    text), and when it is not pressed it makes no engine call. *)
Theorem speak_button_speaks_typed_text (ext : externals) (w : world)
  (engine : handle) :
  tts_engine (session w) = Some engine →
  let w' := snd (SpeechRecognition.tab2 ext w) in
  fst (SpeechRecognition.tab2 ext w) = Ok tt
  ∧ session w' = session w
  ∧ engine_calls (trace w')
    = engine_calls (trace w)
      ++ if ext_button ext (lit "speak_text")
         then spoken ext engine (ext_text_area ext (lit "tts_input"))
         else [].
Proof.
  intros He. cbv zeta.
  unfold SpeechRecognition.tab2, session_attr. streamlit. step.
  destruct (ext_button ext (lit "speak_text")).
  - cbn [session emit]. rewrite He.
    set (wx := emit _ (emit _ (emit _ w))).
    destruct (speak_text_summary ext engine (ext_text_area ext (lit "tts_input")) wx)
      as (Hv & Hs & _ & Hc).
    destruct (SpeechRecognition.speak_text ext engine _ wx) as [[[]|e] w1];
      cbn [fst snd] in Hv, Hs, Hc; [|discriminate].
    cbn [fst snd]. rewrite Hs, Hc. subst wx. cbn [session trace emit].
    rewrite !engine_calls_app. cbn [engine_calls is_engine_call].
    by rewrite !app_nil_r.
  - cbn [fst snd session trace emit].
    rewrite !engine_calls_app. cbn [engine_calls is_engine_call].
    by rewrite !app_nil_r.
Qed.

Lemma speak_button_speaks_typed_text_witness :
  engine_calls (trace (snd (SpeechRecognition.tab2 hello_spoken loaded_world)))
  = engine_calls (trace loaded_world)
    ++ [EngineSay 1 (lit "hello world"); EngineRunAndWait 1].
Proof.
  destruct (speak_button_speaks_typed_text hello_spoken loaded_world 1 eq_refl)
    as (_ & _ & H).
  rewrite H. reflexivity.
Defined.

(** ** The synthesis engine, made once *)

(** X1: when [init_tts_engine] returns an engine and the cache held none,
    the engine is a new object and is given the speech rate 150 before
    anything else is done with it; every later call in the same process,
    after any reruns of the script, returns that same engine without
    initialising or configuring one again. *)
Theorem tts_engine_initialised_once (ext1 ext2 : externals)
  (runs : list externals) (w w1 : world) (h : handle) :
  SpeechRecognition.init_tts_engine ext1 w = (Ok h, w1) →
  (resource_cache w !! lit "init_tts_engine" = None →
   h = next_handle w
   ∧ trace w1 = trace w ++ [Pyttsx3Init; EngineSetProperty h (lit "rate") 150])
  ∧ (let w2 := run_session SpeechRecognition.main runs w1 in
     SpeechRecognition.init_tts_engine ext2 w2 = (Ok h, w2)).
Proof.
  intros Hinit. split.
  - intros Hmiss. revert Hinit.
    unfold SpeechRecognition.init_tts_engine, cache_resource. rewrite Hmiss.
    unfold pyttsx3_init, new_object, engine_setProperty. step.
    destruct (ext_init ext1); [discriminate|].
    destruct (ext_setProperty ext1 _ _ _); [discriminate|].
    intros [= <- <-]. cbn [trace emit set_next_handle set_resource_cache next_handle].
    split; [done|]. by rewrite <- app_assoc.
  - intros w2. apply cache_resource_hit. subst w2.
    apply run_session_keeps_cache;
      [apply speech_recognition_main_keeps_cache|].
    by apply cache_resource_stored in Hinit.
Qed.

Lemma tts_engine_initialised_once_witness :
  let w1 := snd (SpeechRecognition.init_tts_engine quiet initial_world) in
  let w2 := run_session SpeechRecognition.main [hello_recording; hello_spoken] w1 in
  trace w1 = [Pyttsx3Init; EngineSetProperty 0 (lit "rate") 150]
  ∧ SpeechRecognition.init_tts_engine broken_engine w2 = (Ok 0, w2).
Proof.
  intros w1 w2.
  destruct (tts_engine_initialised_once quiet broken_engine
              [hello_recording; hello_spoken] initial_world w1 0 eq_refl)
    as [Hfirst Hlater].
  split; [by destruct (Hfirst eq_refl) | exact Hlater].
Defined.

(** ** When a run fails *)

Lemma app_main_returns (ext : externals) (w : world) (model : handle) :
  whisper_model (session w) = Some model → fst (App.main ext w) = Ok tt.
Proof.
  intros Hm. unfold App.main, assign_transcribed_text. streamlit. step.
  rewrite Hm.
  assert (Hrest : ∀ wx,
            whisper_model (session wx) = Some model →
            fst (let (r0, w0) := App.tab1 ext wx in
                 match r0 with
                 | Ok _ =>
                     let (r1, w1) := App.tab2 ext w0 in
                     match r1 with
                     | Ok _ =>
                         (Ok tt,
                          emit (Ui (StMarkdown (lit "Powered by OpenAI Whisper | Made with Streamlit")))
                            (emit (Ui (StMarkdown (lit "---"))) w1))
                     | Raise e => (Raise e, w1)
                     end
                 | Raise e => (Raise e, w0)
                 end) = Ok tt).
  { intros wx Hmx.
    pose proof (app_tab1_returns ext wx model Hmx) as H1.
    destruct (App.tab1 ext wx) as [[[]|e] w1]; cbn [fst] in H1; [|discriminate].
    destruct (app_tab2_run ext w1) as [H2 _].
    by destruct (App.tab2 ext w1) as [[[]|e] w2]. }
  destruct (transcribed_text (session w)); by apply Hrest.
Qed.

(** X4: a run of [app.py] ends with an exception only when the session
    state holds no model, the cache holds none either and
    [whisper.load_model] raises; the exception is the one it raised, the
    page shows only "Loading Whisper model...", and session state, cache
    and files are as before.  Every other run returns normally. *)
Theorem app_main_fails_only_on_model_load (ext : externals) (w : world) :
  match whisper_model (session w),
        resource_cache w !! lit "load_whisper_model",
        ext_load_model ext (lit "tiny") with
  | None, None, Some e =>
      let w' := snd (App.main ext w) in
      fst (App.main ext w) = Raise e
      ∧ trace w' = trace w ++ [Ui (StInfo (lit "Loading Whisper model..."));
                              WhisperLoadModel (lit "tiny")]
      ∧ session w' = session w
      ∧ resource_cache w' = resource_cache w
      ∧ fs w' = fs w
  | _, _, _ => fst (App.main ext w) = Ok tt
  end.
Proof.
  destruct (whisper_model (session w)) as [model|] eqn:Hm;
    [by apply (app_main_returns ext w model)|].
  rewrite (app_main_loads ext w Hm).
  unfold App.load_whisper_model, cache_resource, whisper_load_model, new_object.
  streamlit. step. cbn [replay foldl].
  destruct (resource_cache w !! lit "load_whisper_model") as [h|].
  - by apply (app_main_returns _ _ h).
  - destruct (ext_load_model ext (lit "tiny")) as [e|].
    + cbn [fst snd trace emit session resource_cache fs].
      by rewrite <- app_assoc.
    + by apply (app_main_returns _ _ (next_handle w)).
Qed.

Lemma speech_recognition_tabs_preserve_handles (ext : externals) :
  let handles := fun w => (whisper_model (session w), tts_engine (session w)) in
  preserves handles (SpeechRecognition.tab1 ext)
  ∧ preserves handles (SpeechRecognition.tab2 ext)
  ∧ preserves handles (SpeechRecognition.tab3 ext).
Proof.
  cbv zeta. repeat split.
  - unfold SpeechRecognition.tab1, SpeechRecognition.record_audio,
      SpeechRecognition.transcribe_audio, SpeechRecognition.transcribe_audio_try,
      sd_wait, assign_transcribed_text.
    streamlit. frame.
  - unfold SpeechRecognition.tab2, SpeechRecognition.speak_text, engine_say,
      engine_runAndWait.
    streamlit. frame.
  - unfold SpeechRecognition.tab3, SpeechRecognition.record_audio,
      SpeechRecognition.transcribe_audio, SpeechRecognition.transcribe_audio_try,
      SpeechRecognition.speak_text, engine_say, engine_runAndWait, sd_wait,
      assign_repeated_text.
    streamlit. frame.
Qed.

Lemma speech_recognition_tab1_returns (ext : externals) (w : world)
  (model : handle) :
  whisper_model (session w) = Some model →
  fst (SpeechRecognition.tab1 ext w) = Ok tt.
Proof.
  intros Hm.
  unfold SpeechRecognition.tab1, session_attr, assign_transcribed_text.
  streamlit. step.
  destruct (ext_button ext (lit "record_transcribe")); [|done].
  set (wx := set_session _ _).
  assert (Hmx : whisper_model (session wx) = Some model) by done.
  clearbody wx.
  destruct (record_audio_summary ext wx) as (Hv & Hs & _).
  destruct (SpeechRecognition.record_audio ext _ _ wx) as [[audio|e] w1];
    cbn [fst snd] in Hv, Hs; [|discriminate].
  destruct audio as [a|]; [|done]. rewrite Hs, Hmx.
  destruct (transcribe_audio_summary ext model a w1) as (Hv2 & _).
  by destruct (SpeechRecognition.transcribe_audio ext model (Some a) w1)
    as [[t|e] w2].
Qed.

Lemma speech_recognition_tab2_returns (ext : externals) (w : world)
  (engine : handle) :
  tts_engine (session w) = Some engine →
  fst (SpeechRecognition.tab2 ext w) = Ok tt.
Proof.
  intros He. unfold SpeechRecognition.tab2, session_attr. streamlit. step.
  destruct (ext_button ext (lit "speak_text")); [|done].
  cbn [session emit]. rewrite He.
  set (wx := emit _ (emit _ (emit _ w))).
  destruct (speak_text_summary ext engine (ext_text_area ext (lit "tts_input")) wx)
    as (Hv & _).
  by destruct (SpeechRecognition.speak_text ext engine _ wx) as [[[]|e] w1].
Qed.

Lemma speech_recognition_tab3_returns (ext : externals) (w : world)
  (model engine : handle) :
  whisper_model (session w) = Some model →
  tts_engine (session w) = Some engine →
  fst (SpeechRecognition.tab3 ext w) = Ok tt.
Proof.
  intros Hm He.
  unfold SpeechRecognition.tab3, session_attr, assign_repeated_text.
  streamlit. step.
  destruct (ext_button ext (lit "record_repeat")); [|done].
  set (wx := set_session _ _).
  assert (Hmx : whisper_model (session wx) = Some model) by done.
  assert (Hex : tts_engine (session wx) = Some engine) by done.
  clearbody wx.
  destruct (record_audio_summary ext wx) as (Hv & Hs & _).
  destruct (SpeechRecognition.record_audio ext _ _ wx) as [[audio|e] w1];
    cbn [fst snd] in Hv, Hs; [|discriminate].
  destruct audio as [a|]; [|done]. rewrite Hs, Hmx.
  destruct (transcribe_audio_summary ext model a w1) as (Hv2 & Hs2 & _).
  destruct (SpeechRecognition.transcribe_audio ext model (Some a) w1)
    as [[t|e] w2]; cbn [fst snd] in Hv2, Hs2; [|discriminate].
  destruct (truthy t); [|done].
  cbn [session emit]. rewrite Hs2, Hs, Hex.
  set (wi := emit _ w2).
  destruct (speak_text_summary ext engine t wi) as (Hv3 & _).
  by destruct (SpeechRecognition.speak_text ext engine t wi) as [[[]|e] w3].
Qed.

(** X5: with the model and the engine in the session state, a run of
    [speech_recognition.py] returns normally whatever the microphone, the
    model and the engine do, keeps both handles in the session state, and
    neither creates nor removes a file. *)
Theorem speech_recognition_main_returns (ext : externals) (w : world)
  (model engine : handle) :
  whisper_model (session w) = Some model →
  tts_engine (session w) = Some engine →
  let w' := snd (SpeechRecognition.main ext w) in
  fst (SpeechRecognition.main ext w) = Ok tt
  ∧ whisper_model (session w') = Some model
  ∧ tts_engine (session w') = Some engine
  ∧ fs w' = fs w.
Proof.
  intros Hm He. cbv zeta.
  split; [|split; [by apply (speech_recognition_main_preserves_handles ext model engine)|
           split; [by apply (speech_recognition_main_preserves_handles ext model engine)|]]].
  - destruct (speech_recognition_tabs_preserve_handles ext) as (P1 & P2 & P3).
    unfold SpeechRecognition.main. streamlit. step. rewrite Hm, He.
    set (wx := emit _ (emit _ _)).
    assert (Hmx : whisper_model (session wx) = Some model) by done.
    assert (Hex : tts_engine (session wx) = Some engine) by done.
    clearbody wx.
    pose proof (speech_recognition_tab1_returns ext wx model Hmx) as R1.
    specialize (P1 wx). cbv beta in P1. rewrite Hmx, Hex in P1.
    destruct (SpeechRecognition.tab1 ext wx) as [[[]|e] w1];
      cbn [fst snd] in R1, P1; [|discriminate].
    injection P1 as Hm1 He1.
    pose proof (speech_recognition_tab2_returns ext w1 engine He1) as R2.
    specialize (P2 w1). cbv beta in P2. rewrite Hm1, He1 in P2.
    destruct (SpeechRecognition.tab2 ext w1) as [[[]|e] w2];
      cbn [fst snd] in R2, P2; [|discriminate].
    injection P2 as Hm2 He2.
    pose proof (speech_recognition_tab3_returns ext w2 model engine Hm2 He2) as R3.
    by destruct (SpeechRecognition.tab3 ext w2) as [[[]|e] w3].
  - assert (Hfs : preserves fs (SpeechRecognition.main ext)).
    { unfold SpeechRecognition.main, SpeechRecognition.tab1,
        SpeechRecognition.tab2, SpeechRecognition.tab3,
        SpeechRecognition.load_whisper_model, SpeechRecognition.init_tts_engine,
        SpeechRecognition.record_audio, SpeechRecognition.transcribe_audio,
        SpeechRecognition.transcribe_audio_try, SpeechRecognition.speak_text,
        whisper_load_model, pyttsx3_init, engine_setProperty, engine_say,
        engine_runAndWait, sd_wait, assign_whisper_model, assign_tts_engine,
        assign_transcribed_text, assign_repeated_text.
      streamlit. frame. }
    apply Hfs.
Qed.

Lemma speech_recognition_main_returns_witness :
  fst (SpeechRecognition.main failed_recording loaded_world) = Ok tt
  ∧ fst (SpeechRecognition.main hello_repeat loaded_world) = Ok tt.
Proof.
  split.
  - apply (speech_recognition_main_returns failed_recording loaded_world 0 1);
      reflexivity.
  - apply (speech_recognition_main_returns hello_repeat loaded_world 0 1);
      reflexivity.
Defined.

(** ** Runs in which nothing is pressed *)

(** X6: a run of [app.py] with the model in the session state in which no
    file is uploaded or "Transcribe Audio" is not pressed only displays:
    every call it makes is a Streamlit display call, no file is created,
    the model is not called, and the stored text stays (the empty string
    if there was none). *)
Theorem app_idle_run_only_displays (ext : externals) (w : world)
  (model : handle) :
  whisper_model (session w) = Some model →
  ext_file_uploader ext = None
  ∨ ext_button ext (lit "transcribe_upload") = false →
  let w' := snd (App.main ext w) in
  (∃ evs, trace w' = trace w ++ evs ∧ Forall is_ui evs)
  ∧ fs w' = fs w
  ∧ resource_cache w' = resource_cache w
  ∧ whisper_model (session w') = Some model
  ∧ transcribed_text (session w')
    = Some (default [] (transcribed_text (session w))).
Proof.
  intros Hm Hidle. cbv zeta.
  unfold App.main, App.tab1, App.tab2, assign_transcribed_text.
  streamlit. step. rewrite Hm.
  destruct (transcribed_text (session w)) as [t|] eqn:Ht;
    (destruct (ext_file_uploader ext) as [file|];
     [destruct Hidle as [Hidle|Hidle]; [discriminate|]; rewrite Hidle|]);
    destruct (truthy (ext_text_area ext (lit "tts_input")));
    cbn [fst snd trace emit fs resource_cache session set_session
         whisper_model transcribed_text default];
    rewrite <- ?app_assoc; cbn [app];
    (split; [eexists; split;
               [reflexivity|repeat (constructor; [exact I|]); constructor]|]);
    rewrite ?Ht; done.
Qed.

Lemma app_idle_run_only_displays_witness :
  fs (snd (App.main hello_typed (run_session App.main [hello_upload] initial_world)))
  = fs (run_session App.main [hello_upload] initial_world)
  ∧ transcribed_text
      (session (snd (App.main hello_typed
                       (run_session App.main [hello_upload] initial_world))))
    = Some (lit "hello").
Proof.
  destruct (app_idle_run_only_displays hello_typed
              (run_session App.main [hello_upload] initial_world) 0
              eq_refl (or_introl eq_refl)) as (_ & Hfs & _ & _ & Ht).
  split; [exact Hfs|]. rewrite Ht. reflexivity.
Defined.

(** X9: a run of [speech_recognition.py] with the model and the engine in
    the session state in which none of the three buttons is pressed only
    displays: every call it makes is a Streamlit display call (no
    recording, no transcription, no speech), and session state, files and
    cache are as before. *)
Theorem speech_recognition_idle_run_only_displays (ext : externals) (w : world)
  (model engine : handle) :
  whisper_model (session w) = Some model →
  tts_engine (session w) = Some engine →
  ext_button ext (lit "record_transcribe") = false →
  ext_button ext (lit "speak_text") = false →
  ext_button ext (lit "record_repeat") = false →
  let w' := snd (SpeechRecognition.main ext w) in
  (∃ evs, trace w' = trace w ++ evs ∧ Forall is_ui evs)
  ∧ session w' = session w
  ∧ fs w' = fs w
  ∧ resource_cache w' = resource_cache w.
Proof.
  intros Hm He H1 H2 H3. cbv zeta.
  unfold SpeechRecognition.main, SpeechRecognition.tab1, SpeechRecognition.tab2,
    SpeechRecognition.tab3.
  streamlit. step. rewrite Hm, He, H1, H2, H3.
  cbn [fst snd trace emit fs resource_cache session].
  rewrite <- ?app_assoc; cbn [app].
  split; [eexists; split;
            [reflexivity|repeat (constructor; [exact I|]); constructor]|done].
Qed.

Lemma speech_recognition_idle_run_only_displays_witness :
  session (snd (SpeechRecognition.main quiet loaded_world)) = session loaded_world.
Proof.
  apply (speech_recognition_idle_run_only_displays quiet loaded_world 0 1);
    reflexivity.
Defined.

(** ** Files *)


(** ** What the upload tab shows *)

Lemma transcribe_uploaded_audio_last_event (ext : externals) (model : handle)
  (file : uploaded_file) (w : world) :
  ∃ body,
    last (trace (snd (App.transcribe_uploaded_audio ext model (Some file) w)))
    = Some (Ui (StWrite body))
    ∨ last (trace (snd (App.transcribe_uploaded_audio ext model (Some file) w)))
      = Some (Ui (StError body)).
Proof.
  pose proof (transcribe_uploaded_audio_try_run ext model file w) as Hrun.
  unfold App.transcribe_uploaded_audio, try_except.
  destruct (first_unused ext (lit ".wav") (fs w) (ext_tempnames ext)) as [p|].
  2:{ rewrite Hrun. streamlit. step. cbn [snd trace emit].
      eexists. right. apply last_snoc. }
  cbv zeta in Hrun. rewrite Hrun. clear Hrun. streamlit. step.
  destruct (ext_create ext p) as [x|];
    [|destruct (ext_write ext p _) as [x|];
      [|destruct (ext_transcribe ext model _) as [r|x];
        [destruct (ext_unlink ext p) as [x|]|]]];
    cbn [snd trace emit]; eexists;
    first [ right; apply last_snoc | left; rewrite last_app; reflexivity ].
Qed.

(** X11: when "Transcribe Audio" is pressed on an upload, the tab stores
    the text the attempt returned; if that text is not empty the last thing
    shown is the copy box holding exactly the stored text, and if it is
    empty (a failed attempt or silence) no copy box is shown last. *)
Theorem copy_area_shows_stored_text (ext : externals) (w : world)
  (model : handle) (file : uploaded_file) :
  whisper_model (session w) = Some model →
  ext_file_uploader ext = Some file →
  ext_button ext (lit "transcribe_upload") = true →
  let w' := snd (App.tab1 ext w) in
  let t := attempt_text (upload_attempt ext (fs w) model file) in
  transcribed_text (session w') = Some t
  ∧ (t ≠ [] →
     last (trace w')
     = Some (Ui (StTextArea (lit "Copy transcribed text:") (Some t) (Some 150)
                   (lit "output_text"))))
  ∧ (t = [] →
     ∀ label value height key,
       last (trace w') ≠ Some (Ui (StTextArea label value height key))).
Proof.
  intros Hm Hfile Hclick. cbv zeta.
  unfold App.tab1, session_attr, assign_transcribed_text. streamlit. step.
  rewrite Hfile, Hclick. cbn [session emit]. rewrite Hm.
  set (wx := emit _ (emit _ (emit _ (emit _ w)))).
  pose proof (transcribe_uploaded_audio_value ext model file wx) as Hv.
  pose proof (transcribe_uploaded_audio_last_event ext model file wx) as Hlast.
  change (fs wx) with (fs w) in Hv. clearbody wx.
  destruct (App.transcribe_uploaded_audio ext model (Some file) wx)
    as [[t|e] w1]; cbn [fst snd] in Hv, Hlast; [|discriminate].
  injection Hv as <-.
  destruct t as [|c t]; cbn [truthy snd session set_session transcribed_text
                             trace emit].
  - split; [done|]. split; [done|]. intros _ label value height key.
    destruct Hlast as [body [-> | ->]]; discriminate.
  - split; [done|]. split; [|discriminate]. intros _. apply last_snoc.
Qed.

Lemma copy_area_shows_stored_text_witness :
  last (trace (snd (App.tab1 hello_upload
                      (run_session App.main [quiet] initial_world))))
  = Some (Ui (StTextArea (lit "Copy transcribed text:") (Some (lit "hello"))
                (Some 150) (lit "output_text"))).
Proof.
  destruct (copy_area_shows_stored_text hello_upload
              (run_session App.main [quiet] initial_world) 0 hello_file
              eq_refl eq_refl eq_refl) as (_ & H & _).
  apply H. discriminate.
Defined.

(** ** What recording reports *)

(** X12: [record_audio] shows exactly one outcome and it matches the
    result: it returns a buffer (the squeezed array the device delivered)
    only after showing "Recording complete!" last, and returns [None] only
    after showing an "Error recording audio: ..." message last. *)
Theorem record_audio_result_matches_message (ext : externals) (d s : N)
  (w : world) :
  let w' := snd (SpeechRecognition.record_audio ext d s w) in
  match fst (SpeechRecognition.record_audio ext d s w) with
  | Ok (Some buf) =>
      (∃ a, ext_rec ext (d * s) s 1 = Ok a ∧ buf = np_squeeze a)
      ∧ last (trace w') = Some (Ui (StSuccess (0x2705 :: lit " Recording complete!")))
      ∧ ∀ body, Ui (StError body) ∉ drop (length (trace w)) (trace w')
  | Ok None =>
      (∃ e, last (trace w')
            = Some (Ui (StError (lit "Error recording audio: " ++ exn_str e))))
      ∧ ∀ body, Ui (StSuccess body) ∉ drop (length (trace w)) (trace w')
  | Raise _ => False
  end.
Proof.
  cbv zeta.
  unfold SpeechRecognition.record_audio, sd_rec, sd_wait. streamlit. step.
  destruct (ext_rec ext (d * s) s 1) as [a|e]; [destruct (ext_wait ext) as [e|]|];
    cbn [fst snd trace emit]; rewrite <- ?app_assoc, drop_app_length; cbn [app].
  - split; [eexists; rewrite last_app; reflexivity|].
    intros body. rewrite !not_elem_of_cons.
    repeat split; try discriminate. apply not_elem_of_nil.
  - split; [eauto|]. split; [rewrite last_app; reflexivity|].
    intros body. rewrite !not_elem_of_cons.
    repeat split; try discriminate. apply not_elem_of_nil.
  - split; [eexists; rewrite last_app; reflexivity|].
    intros body. rewrite !not_elem_of_cons.
    repeat split; try discriminate. apply not_elem_of_nil.
Qed.

(** ** Across a session *)

Lemma strip_is_trimmed (s : str) : is_trimmed (strip s).
Proof. destruct (strip_spec s) as (l & r & _ & _ & _ & Hh & Hl). by split. Qed.

Lemma attempt_output_trimmed (ext : externals) (files : gmap (list N) bytes)
  (model : handle) (t : str) :
  app_attempt ext files model = AttemptSucceeded t
  ∨ recording_attempt ext model = AttemptSucceeded t →
  is_trimmed t.
Proof.
  intros [H|H]; revert H.
  - unfold app_attempt, upload_attempt.
    destruct (ext_file_uploader ext) as [file|]; [|discriminate].
    destruct (ext_button ext _); [|discriminate].
    destruct (first_unused _ _ _ _) as [p|]; [|discriminate].
    destruct (ext_create ext p); [discriminate|].
    destruct (ext_write ext p _); [discriminate|].
    destruct (ext_transcribe ext model _); [|discriminate].
    destruct (ext_unlink ext p); [discriminate|].
    intros [= <-]. apply strip_is_trimmed.
  - unfold recording_attempt.
    destruct (ext_button ext _); [|discriminate].
    destruct (recorded ext) as [a|]; [|discriminate].
    destruct (ext_transcribe ext model _); [|discriminate].
    intros [= <-]. apply strip_is_trimmed.
Qed.

Lemma most_recent_attempt_trimmed (previous : option str) (a : attempt) (t : str) :
  (∀ t0, previous = Some t0 → is_trimmed t0) →
  (∀ t0, a = AttemptSucceeded t0 → is_trimmed t0) →
  most_recent_attempt previous a = Some t → is_trimmed t.
Proof.
  intros Hprev Ha. destruct a as [| |t0]; cbn [most_recent_attempt].
  - apply Hprev.
  - intros [= <-]. by split.
  - intros [= <-]. by apply Ha.
Qed.

(** One run of [app.py] keeps the stored text trimmed. *)
Lemma app_main_keeps_trimmed (ext : externals) (w : world) :
  (∀ t, transcribed_text (session w) = Some t → is_trimmed t) →
  ∀ t, transcribed_text (session (snd (App.main ext w))) = Some t → is_trimmed t.
Proof.
  intros Hinv.
  assert (Hwith : ∀ w1 model,
            whisper_model (session w1) = Some model →
            transcribed_text (session w1) = transcribed_text (session w) →
            ∀ t, transcribed_text (session (snd (App.main ext w1))) = Some t →
                 is_trimmed t).
  { intros w1 model Hm Ht t. rewrite (app_main_text ext model w1 Hm), Ht.
    apply most_recent_attempt_trimmed.
    - intros t0 [= <-]. destruct (transcribed_text (session w)) as [t1|] eqn:E;
        cbn [default]; [by apply Hinv | by split].
    - intros t0 H0. apply (attempt_output_trimmed ext (fs w1) model). by left. }
  destruct (whisper_model (session w)) as [model|] eqn:Hm;
    [by apply (Hwith w model)|].
  rewrite (app_main_loads ext w Hm).
  pose proof (load_whisper_model_frame ext w) as Hs. cbv beta in Hs.
  destruct (App.load_whisper_model ext w) as [[h|e] w0]; cbn [snd] in Hs |- *;
    injection Hs as Hs _.
  - apply (Hwith _ h); [done|]. cbn. by rewrite Hs.
  - rewrite Hs. apply Hinv.
Qed.

(** One run of [speech_recognition.py] keeps the stored text trimmed. *)
Lemma speech_recognition_main_keeps_trimmed (ext : externals) (w : world) :
  (∀ t, transcribed_text (session w) = Some t → is_trimmed t) →
  ∀ t, transcribed_text (session (snd (SpeechRecognition.main ext w))) = Some t →
       is_trimmed t.
Proof.
  intros Hinv.
  assert (Hwith : ∀ w1 model,
            whisper_model (session w1) = Some model →
            transcribed_text (session w1) = transcribed_text (session w) →
            ∀ t, transcribed_text (session (snd (SpeechRecognition.main ext w1)))
                 = Some t → is_trimmed t).
  { intros w1 model Hm Ht t.
    destruct (speech_recognition_main_with_model ext model w1 Hm) as [_ Heq].
    rewrite Heq, Ht.
    destruct (tts_engine _); [|apply Hinv].
    apply most_recent_attempt_trimmed; [apply Hinv|].
    intros t0 H0. apply (attempt_output_trimmed ext ∅ model). by right. }
  destruct (whisper_model (session w)) as [model|] eqn:Hm;
    [by apply (Hwith w model)|].
  rewrite (speech_recognition_main_loads_model ext w Hm).
  pose proof (proj1 (speech_recognition_loaders_frame ext) w) as Hs.
  destruct (SpeechRecognition.load_whisper_model ext w) as [[h|e] w0];
    cbn [snd] in Hs |- *.
  - apply (Hwith _ h); [done|]. cbn. by rewrite Hs.
  - rewrite Hs. apply Hinv.
Qed.

(** X13: in every session of either script, started fresh and whatever the
    user and the libraries do in each run, the stored transcribed text, if
    there is one, has no whitespace at its start or end. *)
Theorem stored_text_always_trimmed (runs : list externals) (t : str) :
  (transcribed_text (session (run_session App.main runs initial_world)) = Some t →
   is_trimmed t)
  ∧ (transcribed_text
       (session (run_session SpeechRecognition.main runs initial_world)) = Some t →
     is_trimmed t).
Proof.
  assert (Hgen : ∀ script,
            (∀ ext w,
               (∀ t, transcribed_text (session w) = Some t → is_trimmed t) →
               ∀ t, transcribed_text (session (snd (script ext w))) = Some t →
                    is_trimmed t) →
            ∀ runs w,
              (∀ t, transcribed_text (session w) = Some t → is_trimmed t) →
              ∀ t, transcribed_text (session (run_session script runs w)) = Some t →
                   is_trimmed t).
  { intros script Hstep rs. induction rs as [|ext rs IH]; intros w Hinv; [done|].
    cbn [run_session foldl]. apply IH. by apply Hstep. }
  split.
  - apply (Hgen App.main app_main_keeps_trimmed runs initial_world). discriminate.
  - apply (Hgen SpeechRecognition.main speech_recognition_main_keeps_trimmed runs
             initial_world). discriminate.
Qed.

Lemma stored_text_always_trimmed_witness :
  transcribed_text
    (session (run_session App.main [hello_upload; hello_typed] initial_world))
  = Some (lit "hello")
  ∧ is_trimmed (lit "hello").
Proof.
  split; [vm_compute; reflexivity|].
  destruct (stored_text_always_trimmed [hello_upload; hello_typed] (lit "hello"))
    as [Happ _].
  apply Happ. vm_compute. reflexivity.
Defined.

(** X14: once the session state holds a model (and, for
    [speech_recognition.py], an engine), it holds the same handles after any
    number of further runs, whatever happens in them. *)
Theorem session_handles_stable (runs : list externals) (w : world)
  (model : handle) :
  whisper_model (session w) = Some model →
  whisper_model (session (run_session App.main runs w)) = Some model
  ∧ ∀ engine,
      tts_engine (session w) = Some engine →
      whisper_model (session (run_session SpeechRecognition.main runs w))
      = Some model
      ∧ tts_engine (session (run_session SpeechRecognition.main runs w))
        = Some engine.
Proof.
  revert w. induction runs as [|ext runs IH]; intros w Hm; [by split|].
  cbn [run_session foldl]. split.
  - apply IH. by apply app_main_preserves_handles.
  - intros engine He.
    destruct (speech_recognition_main_preserves_handles ext model engine w Hm He)
      as [Hm' He'].
    by apply (IH _ Hm').
Qed.

Lemma session_handles_stable_witness :
  whisper_model
    (session (run_session SpeechRecognition.main
                [failed_recording; hello_repeat; hello_spoken] loaded_world))
  = Some 0.
Proof.
  destruct (session_handles_stable [failed_recording; hello_repeat; hello_spoken]
              loaded_world 0 eq_refl) as [_ Hrec].
  by destruct (Hrec 1 eq_refl).
Defined.

(** ** Splitting into words *)

Lemma split_from_concat (tok s : str) :
  concat (split_from tok s) = rev tok ++ filter (fun c => isspace c = false) s.
Proof.
  unfold str in *. revert tok. induction s as [|c s IH]; intros tok; cbn [split_from].
  - by destruct tok.
  - rewrite filter_cons. destruct (isspace c) eqn:Hc.
    + rewrite decide_False by done.
      destruct tok as [|d tok]; [by rewrite IH|].
      cbn [concat]. by rewrite IH.
    + rewrite decide_True by done. rewrite IH. cbn [rev].
      by rewrite <- app_assoc.
Qed.

Lemma token_starts_zero (s : str) :
  token_starts true s = 0%nat ↔ Forall (fun c => isspace c = true) s.
Proof.
  induction s as [|c s IH]; cbn [token_starts].
  - split; [constructor | done].
  - destruct (isspace c) eqn:Hc.
    + rewrite IH. split; [by constructor | by inversion 1].
    + split; [discriminate|]. inversion 1; congruence.
Qed.

(** X15: the words [user_text.split()] counts are non-empty and free of
    whitespace, and together they are the text with its whitespace removed;
    the count is 0 exactly when the text consists of whitespace only. *)
Theorem split_gives_the_words (s : str) :
  Forall (fun t => t ≠ [] ∧ Forall (fun c => isspace c = false) t) (split s)
  ∧ concat (split s) = filter (fun c => isspace c = false) s
  ∧ (length (split s) = 0%nat ↔ Forall (fun c => isspace c = true) s).
Proof.
  split; [by apply split_from_tokens|].
  split; [apply (split_from_concat [] s)|].
  unfold split. rewrite split_from_length. apply token_starts_zero.
Qed.

(** ** A transcription lost to a failing unlink *)

(** X16: when the model has transcribed the upload but [os.unlink] then
    raises, [transcribe_uploaded_audio] returns the empty string, shows the
    unlink error as a transcription error instead of the text, and leaves
    the temporary file on disk. *)
Theorem unlink_failure_loses_transcription (ext : externals) (model : handle)
  (file : uploaded_file) (w : world) (p : str) (r : whisper_result) (e : exn) :
  first_unused ext (lit ".wav") (fs w) (ext_tempnames ext) = Some p →
  ext_create ext p = None →
  ext_write ext p (getvalue file) = None →
  ext_transcribe ext model (AudioPath p (Some (getvalue file))) = Ok r →
  ext_unlink ext p = Some e →
  let w' := snd (App.transcribe_uploaded_audio ext model (Some file) w) in
  fst (App.transcribe_uploaded_audio ext model (Some file) w) = Ok []
  ∧ last (trace w')
    = Some (Ui (StError (lit "Error transcribing audio: " ++ exn_str e)))
  ∧ (∀ body, Ui (StWrite body) ∉ drop (length (trace w)) (trace w'))
  ∧ fs w' !! p = Some (getvalue file).
Proof.
  intros Hp Hc Hw Hr Hu. cbv zeta.
  pose proof (transcribe_uploaded_audio_try_run ext model file w) as Hrun.
  rewrite Hp in Hrun. cbv zeta in Hrun. rewrite Hc, Hw, Hr, Hu in Hrun.
  unfold App.transcribe_uploaded_audio, try_except. rewrite Hrun.
  streamlit. step. cbn [fst snd trace emit fs].
  split; [done|]. split; [apply last_snoc|].
  split; [|apply lookup_insert_eq].
  intros body. rewrite <- app_assoc, drop_app_length. unfold transcribing.
  cbn [app]. rewrite !not_elem_of_cons.
  repeat split; try discriminate. apply not_elem_of_nil.
Qed.

Lemma unlink_failure_loses_transcription_witness :
  fst (App.transcribe_uploaded_audio undeletable_upload 0 (Some hello_file)
         initial_world) = Ok []
  ∧ fs (snd (App.transcribe_uploaded_audio undeletable_upload 0 (Some hello_file)
               initial_world)) !! lit "/tmp/tmpa1b2c3d4.wav"
    = Some (getvalue hello_file).
Proof.
  destruct (unlink_failure_loses_transcription undeletable_upload 0 hello_file
              initial_world (lit "/tmp/tmpa1b2c3d4.wav")
              {| result_text := lit " hello "; result_language := lit "en" |}
              (Exception (lit "[Errno 13] Permission denied"))
              eq_refl eq_refl eq_refl eq_refl eq_refl) as (H1 & _ & _ & H2).
  split; [exact H1 | exact H2].
Defined.

(** ** A model that is already there *)

(** X17: when the model is already in the session state, or the session is
    new but the process-wide cache holds the model, a run of [app.py]
    returns normally, ends with that very model in the session state and
    never calls [whisper.load_model]. *)
Theorem available_model_is_not_reloaded (ext : externals) (w : world)
  (model : handle) :
  whisper_model (session w) = Some model
  ∨ (whisper_model (session w) = None
     ∧ resource_cache w !! lit "load_whisper_model" = Some model) →
  let w' := snd (App.main ext w) in
  fst (App.main ext w) = Ok tt
  ∧ whisper_model (session w') = Some model
  ∧ ∃ evs, trace w' = trace w ++ evs ∧ Forall not_a_model_load evs.
Proof.
  intros [Hm | [Hm Hc]]; cbv zeta.
  - split; [by apply (app_main_returns ext w model)|].
    split; [by apply app_main_preserves_handles|].
    by apply (app_main_with_model_loads_nothing ext w model).
  - split; [|split; [|by apply (app_main_cached_loads_nothing ext w model)]];
      rewrite (app_main_loads ext w Hm); unfold App.load_whisper_model;
      rewrite (cache_resource_hit _ _ _ w model Hc).
    + by apply (app_main_returns ext _ model).
    + by apply app_main_preserves_handles.
Qed.

Lemma available_model_is_not_reloaded_witness :
  let w := set_session empty_session
             (run_session App.main [hello_upload] initial_world) in
  whisper_model (session w) = None
  ∧ whisper_model (session (snd (App.main hello_typed w))) = Some 0.
Proof.
  intros w. split; [reflexivity|].
  destruct (available_model_is_not_reloaded hello_typed w 0
              (or_intror (conj eq_refl eq_refl))) as (_ & H & _).
  exact H.
Defined.
